(** * Deep links of Ham2K Polo: [src/deep-linking/DeepLinkUtils.js]

    A shallow embedding of [parseDeepLinkURL], [parseFrequency] and
    [buildSuggestedQSO], with the two lookup tables they use, and of
    [handleDeepLink] and [findOrCreateOperation] of [DeepLinkHandler.js],
    whose dispatches and navigation are returned as a list of events.

    Conventions of the embedding.
    - A JavaScript string is a [string]; each [ascii] stands for the code
      unit of the same number, so the model covers the strings whose code
      units are below 256.  [startsWith], [slice], [split] and [parseInt]
      are written out on them.
    - [undefined] and [null] are [None]; a JavaScript number is a [jsnum],
      either [NaN] or [Num z].  [Num z] carries the integer that the digits
      denote; the JavaScript number is the double nearest to it, which is
      [z] itself as long as [|z| <= 2^53] (and [-0] is [Num 0]: both are
      falsy and equal under [==]).
    - What the platform supplies is an interface: the Unicode case mappings
      and the [URLSearchParams] class are the fields of [Host], the two
      functions imported from [@ham2k/lib-operation-data] are the fields of
      [OperationData], and [Date.now()] is an argument.  Concrete instances
      (an ASCII host with the WHATWG query parser, and the lookup functions
      of the repository's test file) make every definition run.
    - A thrown exception is the [Throw] case of [completion]; [try]/[catch]
      is [try_catch]. *)

From Stdlib Require Import String Ascii List ZArith Bool Lia DecimalString DecimalZ.
Import ListNotations.
Open Scope string_scope.
Open Scope Z_scope.

(** ** JavaScript values and control *)

Inductive jsnum : Type :=
| NaN
| Num (z : Z).

Definition isNaN (n : jsnum) : bool :=
  match n with NaN => true | Num _ => false end.

(** Truthiness of the values that occur in the file. *)
Definition truthy_num (n : jsnum) : bool :=
  match n with NaN => false | Num z => negb (z =? 0) end.

Definition truthy_str (s : string) : bool :=
  match s with EmptyString => false | String _ _ => true end.

Definition truthy {A} (t : A -> bool) (o : option A) : bool :=
  match o with None => false | Some a => t a end.

(** [x || undefined] for [x] a string, [null] or [undefined]. *)
Definition or_undefined (o : option string) : option string :=
  if truthy truthy_str o then o else None.

Inductive completion (A : Type) : Type :=
| Normal (a : A)
| Throw (e : string).
Arguments Normal {A} a.
Arguments Throw {A} e.

Definition bind {A B} (c : completion A) (k : A -> completion B) : completion B :=
  match c with
  | Normal a => k a
  | Throw e => Throw e
  end.

Definition try_catch {A} (body : completion A) (handler : string -> completion A)
  : completion A :=
  match body with
  | Normal a => Normal a
  | Throw e => handler e
  end.

Notation "x <- c ;; k" := (bind c (fun x => k))
  (at level 61, c at next level, right associativity).

(** ** Strings *)

Definition code (a : ascii) : Z := Z.of_N (N_of_ascii a).

(** [s.startsWith(p)] *)
Definition startsWith (s p : string) : bool := String.prefix p s.

(** [s.slice(n)] for [0 <= n] *)
Fixpoint slice (s : string) (n : nat) : string :=
  match n, s with
  | O, _ => s
  | S _, EmptyString => EmptyString
  | S m, String _ t => slice t m
  end.

(** [s.split(sep)] for a separator of one code unit *)
Fixpoint split (sep : ascii) (s : string) : list string :=
  match s with
  | EmptyString => [EmptyString]
  | String a t =>
      if Ascii.eqb a sep then EmptyString :: split sep t
      else match split sep t with
           | h :: r => String a h :: r
           | [] => [String a EmptyString]
           end
  end.

(** *** [parseInt(s, 10)], ECMAScript 19.2.5 *)

(** The white space code units below 256: TAB, LF, VT, FF, CR, SP, NBSP. *)
Definition is_white (a : ascii) : bool :=
  let n := code a in
  ((9 <=? n) && (n <=? 13)) || (n =? 32) || (n =? 160).

Definition is_digit (a : ascii) : bool :=
  let n := code a in (48 <=? n) && (n <=? 57).

Fixpoint trimStart (s : string) : string :=
  match s with
  | String a t => if is_white a then trimStart t else s
  | EmptyString => EmptyString
  end.

(** The longest prefix made of decimal digits. *)
Fixpoint digits_prefix (s : string) : string :=
  match s with
  | String a t => if is_digit a then String a (digits_prefix t) else EmptyString
  | EmptyString => EmptyString
  end.

Fixpoint decimal_value_from (acc : Z) (s : string) : Z :=
  match s with
  | String a t => decimal_value_from (acc * 10 + (code a - 48)) t
  | EmptyString => acc
  end.

Definition decimal_value (s : string) : Z := decimal_value_from 0 s.

(** A leading [-] or [+] is removed and gives the sign. *)
Definition sign_and_rest (s : string) : Z * string :=
  match s with
  | String "-"%char t => (-1, t)
  | String "+"%char t => (1, t)
  | _ => (1, s)
  end.

(** The result carries the integer that the digits denote.  JavaScript
    returns the double nearest to it: the integer itself up to [2^53] in
    magnitude, a rounded value above, [Infinity] from about 309 digits. *)
Definition parseInt (input : string) : jsnum :=
  let '(sign, rest) := sign_and_rest (trimStart input) in
  let digits := digits_prefix rest in
  if truthy_str digits then Num (sign * decimal_value digits) else NaN.

(** ** The platform *)

(** [params.get(name)] of a [URLSearchParams] object: a string or [null]. *)
Definition SearchParams : Type := string -> option string.

Class Host : Type := {
  toLowerCase : string -> string;
  toUpperCase : string -> string;
  (** [new URLSearchParams(init)], which a platform may refuse *)
  newURLSearchParams : string -> completion SearchParams
}.

Class OperationData : Type := {
  bandForFrequency : jsnum -> option string;
  modeForFrequency : jsnum -> option string
}.

(** ** The lookup tables *)

Definition URL_SCHEME : string := "com.ham2k.polo://".

(** An object literal: its own properties, in source order. *)
Definition object : Type := list (string * string).

Definition TYPE_TO_ACTIVATION : object :=
  [ ("sota", "sotaActivation");
    ("pota", "potaActivation");
    ("wwff", "wwffActivation");
    ("gma", "gmaActivation");
    ("wca", "wcaActivation");
    ("zlota", "zlotaActivation") ].

Definition TYPE_TO_HUNTING : object :=
  [ ("sota", "sota");
    ("pota", "pota");
    ("wwff", "wwff");
    ("gma", "gma");
    ("wca", "wca");
    ("zlota", "zlota") ].

(** What reading a property of such an object can give: a string of the
    literal, or a member inherited from [Object.prototype]. *)
Inductive jsval : Type :=
| JStr (s : string)
| JInherited (name : string).

Definition truthy_val (v : jsval) : bool :=
  match v with
  | JStr s => truthy_str s
  | JInherited _ => true
  end.

Fixpoint own_property (o : object) (key : string) : option string :=
  match o with
  | [] => None
  | (k, v) :: rest => if String.eqb k key then Some v else own_property rest key
  end.

(** The property names of [Object.prototype]. *)
Definition Object_prototype : list string :=
  [ "constructor"; "__proto__"; "hasOwnProperty"; "isPrototypeOf";
    "propertyIsEnumerable"; "toLocaleString"; "toString"; "valueOf";
    "__defineGetter__"; "__defineSetter__"; "__lookupGetter__";
    "__lookupSetter__" ].

(** [o[key]]: an own property first, then the prototype chain. *)
Definition get_property (o : object) (key : string) : option jsval :=
  match own_property o key with
  | Some v => Some (JStr v)
  | None =>
      if existsb (String.eqb key) Object_prototype then Some (JInherited key)
      else None
  end.

(** ** [parseDeepLinkURL] *)

Record ParsedLinkParams : Type := {
  myRef : option string;
  mySig : option string;
  theirRef : option string;
  theirSig : option string;
  freq : option jsnum;
  mode : option string;
  time : option jsnum;
  myCall : option string;
  theirCall : option string
}.

Definition parseFrequency (freqStr : option string) : option jsnum :=
  if negb (truthy truthy_str freqStr) then None
  else match freqStr with
       | Some s => let hz := parseInt s in if isNaN hz then None else Some hz
       | None => None
       end.

(** [const [, queryString] = urlPath.split('?')] *)
Definition queryString_of (urlPath : string) : option string :=
  nth_error (split "?"%char urlPath) 1.

Section Parser.
Context {host : Host}.

(** The four reference parameters as lines 49-52 read them. *)
Definition read_myRef (params : SearchParams) : option string :=
  or_undefined (params "myRef").
Definition read_mySig (params : SearchParams) : option string :=
  or_undefined (option_map toLowerCase (params "mySig")).
Definition read_theirRef (params : SearchParams) : option string :=
  or_undefined (params "theirRef").
Definition read_theirSig (params : SearchParams) : option string :=
  or_undefined (option_map toLowerCase (params "theirSig")).

(** [sig && !TYPE_TO_ACTIVATION[sig]] *)
Definition unknown_sig (sig : option string) : bool :=
  match sig with
  | Some s =>
      truthy_str s && negb (truthy truthy_val (get_property TYPE_TO_ACTIVATION s))
  | None => false
  end.

(** Lines 49-85: from the decoded parameters to the result. *)
Definition parseParams (params : SearchParams) : option ParsedLinkParams :=
  let myRef := read_myRef params in
  let mySig := read_mySig params in
  let theirRef := read_theirRef params in
  let theirSig := read_theirSig params in
  let hasMyRef := truthy truthy_str myRef && truthy truthy_str mySig in
  let hasTheirRef := truthy truthy_str theirRef && truthy truthy_str theirSig in
  if negb hasMyRef && negb hasTheirRef then None
  else if unknown_sig mySig then None
  else if unknown_sig theirSig then None
  else Some {|
    myRef := myRef;
    mySig := mySig;
    theirRef := theirRef;
    theirSig := theirSig;
    freq := parseFrequency (params "freq");
    mode := or_undefined (option_map toUpperCase (params "mode"));
    time := if truthy truthy_str (params "time")
            then option_map parseInt (params "time")
            else None;
    myCall := or_undefined (option_map toUpperCase (params "myCall"));
    theirCall := or_undefined (option_map toUpperCase (params "theirCall"))
  |}.

(** The body of the [try] block, lines 40-85. *)
Definition parseDeepLinkURL_try (url : string) : completion (option ParsedLinkParams) :=
  let urlPath := slice url (String.length URL_SCHEME) in
  match queryString_of urlPath with
  | None => Normal None
  | Some queryString =>
      if negb (truthy_str queryString) then Normal None
      else
        params <- newURLSearchParams queryString ;;
        Normal (parseParams params)
  end.

Definition parseDeepLinkURL (url : string) : completion (option ParsedLinkParams) :=
  if negb (startsWith url URL_SCHEME) then Normal None
  else try_catch (parseDeepLinkURL_try url) (fun e => Normal None).

End Parser.

(** ** [buildSuggestedQSO] *)

Record Party : Type := {
  call : option string
}.

Record RefEntry : Type := {
  type : option jsval;
  ref : string
}.

Module QSO.
Record t : Type := {
  _suggestedKey : string;
  their : Party;
  our : Party;
  freq : option jsnum;
  band : option string;
  mode : option string;
  startAtMillis : option jsnum;
  refs : option (list RefEntry)
}.

(** The assignments [qso.x = v] of the function. *)
Definition set_their (q : t) (v : Party) : t :=
  {| _suggestedKey := _suggestedKey q; their := v; our := our q; freq := freq q;
     band := band q; mode := mode q; startAtMillis := startAtMillis q; refs := refs q |}.
Definition set_our (q : t) (v : Party) : t :=
  {| _suggestedKey := _suggestedKey q; their := their q; our := v; freq := freq q;
     band := band q; mode := mode q; startAtMillis := startAtMillis q; refs := refs q |}.
Definition set_freq (q : t) (v : option jsnum) : t :=
  {| _suggestedKey := _suggestedKey q; their := their q; our := our q; freq := v;
     band := band q; mode := mode q; startAtMillis := startAtMillis q; refs := refs q |}.
Definition set_band (q : t) (v : option string) : t :=
  {| _suggestedKey := _suggestedKey q; their := their q; our := our q; freq := freq q;
     band := v; mode := mode q; startAtMillis := startAtMillis q; refs := refs q |}.
Definition set_mode (q : t) (v : option string) : t :=
  {| _suggestedKey := _suggestedKey q; their := their q; our := our q; freq := freq q;
     band := band q; mode := v; startAtMillis := startAtMillis q; refs := refs q |}.
Definition set_startAtMillis (q : t) (v : option jsnum) : t :=
  {| _suggestedKey := _suggestedKey q; their := their q; our := our q; freq := freq q;
     band := band q; mode := mode q; startAtMillis := v; refs := refs q |}.
Definition set_refs (q : t) (v : option (list RefEntry)) : t :=
  {| _suggestedKey := _suggestedKey q; their := their q; our := our q; freq := freq q;
     band := band q; mode := mode q; startAtMillis := startAtMillis q; refs := v |}.
End QSO.

(** The decimal digits of an integer, as a template literal prints it. *)
Definition decimal_of (z : Z) : string := NilZero.string_of_int (Z.to_int z).

Section Builder.
Context {lib : OperationData}.

(** Lines 119-126. *)
Definition apply_freq (p : ParsedLinkParams) (qso : QSO.t) : QSO.t :=
  match freq p with
  | Some f =>
      if truthy_num f then
        let qso := QSO.set_freq qso (Some f) in
        let qso := QSO.set_band qso (bandForFrequency f) in
        if negb (truthy truthy_str (mode p))
        then QSO.set_mode qso (modeForFrequency f)
        else qso
      else qso
  | None => qso
  end.

(** Lines 136-141. *)
Definition apply_refs (p : ParsedLinkParams) (qso : QSO.t) : QSO.t :=
  match theirRef p, theirSig p with
  | Some r, Some s =>
      if truthy_str r && truthy_str s then
        let theirHuntingType := get_property TYPE_TO_HUNTING s in
        QSO.set_refs qso (Some [ {| type := theirHuntingType; ref := r |} ])
      else qso
  | _, _ => qso
  end.

(** [now] is the value of [Date.now()] at the call. *)
Definition buildSuggestedQSO (now : Z) (p : ParsedLinkParams) : QSO.t :=
  let qso := {|
    QSO._suggestedKey := "deeplink-" ++ decimal_of now;
    QSO.their := {| call := None |};
    QSO.our := {| call := None |};
    QSO.freq := None;
    QSO.band := None;
    QSO.mode := None;
    QSO.startAtMillis := None;
    QSO.refs := None
  |} in
  let qso := if truthy truthy_str (theirCall p)
             then QSO.set_their qso {| call := theirCall p |} else qso in
  let qso := if truthy truthy_str (myCall p)
             then QSO.set_our qso {| call := myCall p |} else qso in
  let qso := apply_freq p qso in
  let qso := if truthy truthy_str (mode p)
             then QSO.set_mode qso (mode p) else qso in
  let qso := if truthy truthy_num (time p)
             then QSO.set_startAtMillis qso (time p) else qso in
  apply_refs p qso.

End Builder.

(** ** Concrete platforms *)

Definition ascii_lower (a : ascii) : ascii :=
  let n := code a in
  if (65 <=? n) && (n <=? 90) then ascii_of_N (Z.to_N (n + 32)) else a.

Definition ascii_upper (a : ascii) : ascii :=
  let n := code a in
  if (97 <=? n) && (n <=? 122) then ascii_of_N (Z.to_N (n - 32)) else a.

Fixpoint map_string (f : ascii -> ascii) (s : string) : string :=
  match s with
  | EmptyString => EmptyString
  | String a t => String (f a) (map_string f t)
  end.

(** *** The query parser of the URL standard
    ([application/x-www-form-urlencoded] parsing), on ASCII text *)

Definition hex_value (a : ascii) : option Z :=
  let n := code a in
  if (48 <=? n) && (n <=? 57) then Some (n - 48)
  else if (65 <=? n) && (n <=? 70) then Some (n - 55)
  else if (97 <=? n) && (n <=? 102) then Some (n - 87)
  else None.

(** Each escape gives one code unit.  This is the standard's decoding as
    long as the escapes are below [%80]; from [%80] on the standard reads
    the bytes as UTF-8, which is outside this model. *)
Fixpoint percent_decode (s : string) : string :=
  match s with
  | EmptyString => EmptyString
  | String a t =>
      match a, t with
      | "%"%char, String h (String l rest) =>
          match hex_value h, hex_value l with
          | Some x, Some y => String (ascii_of_N (Z.to_N (16 * x + y))) (percent_decode rest)
          | _, _ => String a (percent_decode t)
          end
      | _, _ => String a (percent_decode t)
      end
  end.

Definition plus_to_space (a : ascii) : ascii :=
  if Ascii.eqb a "+"%char then " "%char else a.

Definition decode_component (s : string) : string :=
  percent_decode (map_string plus_to_space s).

(** A sequence is cut at its first [=]; without one the value is empty. *)
Fixpoint name_value (s : string) : string * string :=
  match s with
  | EmptyString => (EmptyString, EmptyString)
  | String a t =>
      if Ascii.eqb a "="%char then (EmptyString, t)
      else let '(n, v) := name_value t in (String a n, v)
  end.

Definition urlencoded_parse (input : string) : list (string * string) :=
  map (fun seq => let '(n, v) := name_value seq in
                  (decode_component n, decode_component v))
      (filter truthy_str (split "&"%char input)).

(** [get] returns the value of the first pair with that name. *)
Fixpoint first_value (l : list (string * string)) (name : string) : option string :=
  match l with
  | [] => None
  | (n, v) :: rest => if String.eqb n name then Some v else first_value rest name
  end.

(** A leading [?] of the initializer is dropped. *)
Definition URLSearchParams_of (init : string) : SearchParams :=
  let input := match init with
               | String "?"%char t => t
               | _ => init
               end in
  first_value (urlencoded_parse input).

(** A standard platform; its case mappings are those of JavaScript on
    ASCII text. *)
Definition ascii_host : Host := {|
  toLowerCase := map_string ascii_lower;
  toUpperCase := map_string ascii_upper;
  newURLSearchParams := fun init => Normal (URLSearchParams_of init)
|}.

(** A platform whose [URLSearchParams] is a stub that throws. *)
Definition stub_host : Host := {|
  toLowerCase := map_string ascii_lower;
  toUpperCase := map_string ascii_upper;
  newURLSearchParams := fun _ => Throw "URLSearchParams is not implemented"
|}.

(** The lookup functions that the repository's test file installs. *)
Definition test_bandForFrequency (f : jsnum) : option string :=
  match f with
  | NaN => None
  | Num freq =>
      if (14000000 <=? freq) && (freq <? 14350000) then Some "20m"
      else if (7000000 <=? freq) && (freq <? 7300000) then Some "40m"
      else if (21000000 <=? freq) && (freq <? 21450000) then Some "15m"
      else None
  end.

Definition test_modeForFrequency (f : jsnum) : option string :=
  match f with
  | NaN => Some "SSB"
  | Num freq =>
      if (14000000 <=? freq) && (freq <? 14100000) then Some "CW"
      else if (14100000 <=? freq) && (freq <? 14350000) then Some "SSB"
      else if (7000000 <=? freq) && (freq <? 7050000) then Some "CW"
      else if (7050000 <=? freq) && (freq <? 7300000) then Some "SSB"
      else Some "SSB"
  end.

Definition test_lib : OperationData := {|
  bandForFrequency := test_bandForFrequency;
  modeForFrequency := test_modeForFrequency
|}.

(** [parseDeepLinkURL] on the standard platform. *)
Definition parse (url : string) : completion (option ParsedLinkParams) :=
  @parseDeepLinkURL ascii_host url.

(** ** The vocabulary of the specification *)

(** A field is provided when it holds a string that is not empty; the
    parser stores the absent marker for a parameter that is missing or
    empty, so its results hold no empty string. *)
Definition provided (o : option string) : Prop :=
  exists s, o = Some s /\ s <> EmptyString.

(** A reference pair is complete when both members are provided, and
    partially specified when exactly one is. *)
Definition complete (r s : option string) : Prop :=
  provided r /\ provided s.

Definition partially_specified (r s : option string) : Prop :=
  (provided r /\ s = None) \/ (r = None /\ provided s).

(** The six activation codes. *)
Definition ActivationCodes : list string :=
  [ "sota"; "pota"; "wwff"; "gma"; "wca"; "zlota" ].

(** [url] begins with the scheme, has a query string that is not empty,
    and the platform decodes that query string to [params]. *)
Definition carries {host : Host} (url : string) (params : SearchParams) : Prop :=
  startsWith url URL_SCHEME = true /\
  exists queryString,
    queryString_of (slice url (String.length URL_SCHEME)) = Some queryString /\
    queryString <> EmptyString /\
    newURLSearchParams queryString = Normal params.

(** Two parameter sets that give the same four reference parameters. *)
Definition same_refs (a b : SearchParams) : Prop :=
  a "myRef" = b "myRef" /\ a "mySig" = b "mySig" /\
  a "theirRef" = b "theirRef" /\ a "theirSig" = b "theirSig".

Fixpoint all_digits (s : string) : bool :=
  match s with
  | EmptyString => true
  | String a t => is_digit a && all_digits t
  end.

Fixpoint all_white (s : string) : bool :=
  match s with
  | EmptyString => true
  | String a t => is_white a && all_white t
  end.

(** A string of one or more decimal digits. *)
Definition is_digit_string (s : string) : bool :=
  truthy_str s && all_digits s.

(** A valid integer string: an optional sign and one or more decimal
    digits, nothing else. *)
Definition is_integer_string (s : string) : bool :=
  match s with
  | String "-"%char t => is_digit_string t
  | String "+"%char t => is_digit_string t
  | _ => is_digit_string s
  end.

Definition is_sign (s : string) : Prop :=
  s = EmptyString \/ s = "+" \/ s = "-".

(** The strings that begin with an integer as [parseInt] reads one: white
    space, an optional sign, one or more decimal digits, then anything. *)
Definition begins_with_integer (s : string) : Prop :=
  exists ws sg ds rest,
    s = ws ++ sg ++ ds ++ rest /\
    all_white ws = true /\ is_sign sg /\ is_digit_string ds = true.

Definition starts_with_digit (s : string) : bool :=
  match s with
  | String a _ => is_digit a
  | EmptyString => false
  end.

Definition sign_of (sg : string) : Z :=
  if String.eqb sg "-" then -1 else 1.

(** Everything after the first [?] of a string, if it has one. *)
Fixpoint after_first_question (s : string) : option string :=
  match s with
  | EmptyString => None
  | String a t => if Ascii.eqb a "?"%char then Some t else after_first_question t
  end.

(** *** Four sentences of the specification, as predicates on an input *)

(** A partially specified pair makes the parse null. *)
Definition partial_pair_rejected {host : Host} (url : string) : Prop :=
  forall params,
    carries url params ->
    partially_specified (read_myRef params) (read_mySig params) \/
    partially_specified (read_theirRef params) (read_theirSig params) ->
    parseDeepLinkURL url = Normal None.

(** A present [freq] is copied, with the band and the mode derived from it. *)
Definition freq_is_copied {lib : OperationData} (now : Z) (p : ParsedLinkParams) : Prop :=
  forall f,
    freq p = Some f ->
    let qso := buildSuggestedQSO now p in
    QSO.freq qso = Some f /\
    QSO.band qso = bandForFrequency f /\
    (mode p = None -> QSO.mode qso = modeForFrequency f).

(** [freq] is a non-negative integer for a valid integer string and absent
    for any other value of the parameter. *)
Definition freq_is_strict {host : Host} (url : string) : Prop :=
  forall params p s,
    carries url params ->
    parseDeepLinkURL url = Normal (Some p) ->
    params "freq" = Some s ->
    (is_integer_string s = true -> exists z, freq p = Some (Num z) /\ 0 <= z) /\
    (is_integer_string s = false -> freq p = None).


(** ** Parameter sets of the test file *)

(** [{ theirRef: 'TEST', theirSig: 'pota', freq: 14035000 }] *)
Definition hunt_pota_cw_portion : ParsedLinkParams :=
  {| myRef := None; mySig := None; theirRef := Some "TEST"; theirSig := Some "pota";
     freq := Some (Num 14035000); mode := None; time := None;
     myCall := None; theirCall := None |}.

(** [{ theirRef: 'TEST', theirSig: 'sota', freq: 14285000, mode: 'CW' }] *)
Definition hunt_sota_explicit_cw : ParsedLinkParams :=
  {| myRef := None; mySig := None; theirRef := Some "TEST"; theirSig := Some "sota";
     freq := Some (Num 14285000); mode := Some "CW"; time := None;
     myCall := None; theirCall := None |}.

(** The result for
    [com.ham2k.polo://qso?myRef=K-1234&mySig=pota&theirRef=W6/CT-006&theirSig=sota&theirCall=K6TEST] *)
Definition summit_to_summit : ParsedLinkParams :=
  {| myRef := Some "K-1234"; mySig := Some "pota";
     theirRef := Some "W6/CT-006"; theirSig := Some "sota";
     freq := None; mode := None; time := None;
     myCall := None; theirCall := Some "K6TEST" |}.

(** ** URLs used below *)

Definition url_lone_myRef : string :=
  "com.ham2k.polo://qso?myRef=W6/CT-006".

Definition url_summit_to_summit : string :=
  "com.ham2k.polo://qso?myRef=K-1234&mySig=pota&theirRef=W6/CT-006&theirSig=sota&theirCall=K6TEST".

Definition url_sig_constructor : string :=
  "com.ham2k.polo://qso?myRef=X&mySig=constructor".

Definition url_partial_beside_complete : string :=
  "com.ham2k.polo://qso?myRef=K-1234&theirRef=W6/CT-006&theirSig=sota".

Definition url_freq_with_suffix : string :=
  "com.ham2k.polo://qso?theirRef=TEST&theirSig=sota&freq=12abc".

Definition url_freq_digits : string :=
  "com.ham2k.polo://qso?theirRef=TEST&theirSig=sota&freq=14285000".

Definition url_freq_negative : string :=
  "com.ham2k.polo://qso?theirRef=TEST&theirSig=sota&freq=-5".



Definition url_second_question : string :=
  "com.ham2k.polo://qso?theirRef=A?B&theirSig=sota".

(** [carries] on the standard platform, by running the definitions. *)
Ltac carries_by_computation :=
  split;
  [ reflexivity
  | eexists; split; [reflexivity | split; [discriminate | reflexivity]] ].

(** ** [src/deep-linking/DeepLinkHandler.js] *)

(** An operation of the store, as far as the handler looks at it. *)
Record Operation : Type := {
  uuid : string;
  deleted : bool;
  op_refs : list RefEntry
}.

(** The argument of [addNewOperation]: [{ _useTemplates: true }] or
    [{ refs: [...], _isNew: true }]; a flag that is not given is [false],
    and [refs] that is not given is [None]. *)
Record NewOperation : Type := {
  _useTemplates : bool;
  new_refs : option (list RefEntry);
  _isNew : bool
}.

(** What the handler does to the outside: the actions it dispatches to the
    store and the navigation it asks for, in order. *)
Inductive event : Type :=
| Dispatch_addNewOperation (data : NewOperation)
| Dispatch_setOperationData (id : string) (refs : list RefEntry)
| Navigate_Operation (id : string) (operation : Operation) (qso : QSO.t).

Definition is_navigate (e : event) : bool :=
  match e with Navigate_Operation _ _ _ => true | _ => false end.

Definition is_addNewOperation (e : event) : bool :=
  match e with Dispatch_addNewOperation _ => true | _ => false end.

(** The store: what awaiting the dispatched action gives, an operation or a
    rejection. *)
Class Store : Type := {
  addNewOperation : NewOperation -> completion Operation;
  setOperationData : string -> list RefEntry -> completion unit
}.

(** [findRef] of [tools/refTools]. *)
Class RefTools : Type := {
  findRef : Operation -> option jsval -> option RefEntry
}.

(** [Object.values(operations || {})]: the operations in the order of the
    object, a [null] entry being [None]. *)
Definition values_or_empty (operations : option (list (option Operation)))
  : list (option Operation) :=
  match operations with
  | Some l => l
  | None => []
  end.

Section Handler.
Context {host : Host} {lib : OperationData} {store : Store} {tools : RefTools}.

(** The predicate of [find], lines 115-119. *)
Definition matches_ref (activationType : option jsval) (myRef : string)
    (op : option Operation) : bool :=
  match op with
  | None => false
  | Some o =>
      if deleted o then false
      else match findRef o activationType with
           | Some opRef => String.eqb (ref opRef) myRef
           | None => false
           end
  end.

(** Lines 104-137; the events come with the result. *)
Definition findOrCreateOperation (myRef mySig : option string)
    (operations : option (list (option Operation)))
  : list event * completion Operation :=
  let generic := {| _useTemplates := true; new_refs := None; _isNew := false |} in
  match myRef, mySig with
  | Some r, Some s =>
      if negb (truthy_str r) || negb (truthy_str s) then
        ([Dispatch_addNewOperation generic], addNewOperation generic)
      else
        let activationType := get_property TYPE_TO_ACTIVATION s in
        let existingOp :=
          find (matches_ref activationType r) (values_or_empty operations) in
        match existingOp with
        | Some (Some op) => ([], Normal op)
        | _ =>
            let data := {| _useTemplates := false;
                           new_refs := Some [ {| type := activationType; ref := r |} ];
                           _isNew := true |} in
            match addNewOperation data with
            | Throw e => ([Dispatch_addNewOperation data], Throw e)
            | Normal newOperation =>
                ([Dispatch_addNewOperation data;
                  Dispatch_setOperationData (uuid newOperation) (op_refs newOperation)],
                 _ <- setOperationData (uuid newOperation) (op_refs newOperation) ;;
                 Normal newOperation)
            end
        end
  | _, _ => ([Dispatch_addNewOperation generic], addNewOperation generic)
  end.

(** Lines 42-73.  [processedUrl] is [processedUrlRef.current], [operations]
    the value the callback closes over and [now] the clock read by
    [buildSuggestedQSO]; the result is the new [processedUrlRef.current]
    and the events. *)
Definition handleDeepLink (now : Z) (operations : option (list (option Operation)))
    (processedUrl : option string) (url : option string)
  : option string * list event :=
  match url with
  | None => (processedUrl, [])
  | Some u =>
      if negb (truthy_str u) || negb (startsWith u URL_SCHEME) then (processedUrl, [])
      else if match processedUrl with
              | Some last => String.eqb last u
              | None => false
              end
      then (processedUrl, [])
      else
        let processedUrl := Some u in
        match parseDeepLinkURL u with
        | Throw _ => (processedUrl, [])
        | Normal None => (processedUrl, [])
        | Normal (Some parsed) =>
            let suggestedQSO := buildSuggestedQSO now parsed in
            let '(events, operation) :=
              findOrCreateOperation (myRef parsed) (mySig parsed) operations in
            match operation with
            | Throw _ => (processedUrl, events)
            | Normal op =>
                (processedUrl,
                 (events ++ [Navigate_Operation (uuid op) op suggestedQSO])%list)
            end
        end
  end.

End Handler.

(** *** A store and a [findRef] to run the handler with *)

Definition jsval_eqb (a b : jsval) : bool :=
  match a, b with
  | JStr x, JStr y => String.eqb x y
  | JInherited x, JInherited y => String.eqb x y
  | _, _ => false
  end.

Definition same_type (a b : option jsval) : bool :=
  match a, b with
  | Some x, Some y => jsval_eqb x y
  | None, None => true
  | _, _ => false
  end.

(** The first reference of the operation with the given type. *)
Definition first_ref_of_type : RefTools := {|
  findRef := fun op t => find (fun r => same_type (type r) t) (op_refs op)
|}.

(** A store that answers [addNewOperation] with an operation holding the
    given references. *)
Definition fresh_store : Store := {|
  addNewOperation := fun data =>
    Normal {| uuid := "fresh";
              deleted := false;
              op_refs := match new_refs data with Some l => l | None => [] end |};
  setOperationData := fun _ _ => Normal tt
|}.

(** A store that rejects every action. *)
Definition failing_store : Store := {|
  addNewOperation := fun _ => Throw "rejected";
  setOperationData := fun _ _ => Throw "rejected"
|}.

Definition op_K1234 : Operation :=
  {| uuid := "op-1"; deleted := false;
     op_refs := [ {| type := Some (JStr "potaActivation"); ref := "K-1234" |} ] |}.

Definition op_K1234_deleted : Operation :=
  {| uuid := "op-0"; deleted := true;
     op_refs := [ {| type := Some (JStr "potaActivation"); ref := "K-1234" |} ] |}.

(** A live operation that activates another park. *)
Definition op_K9999 : Operation :=
  {| uuid := "op-2"; deleted := false;
     op_refs := [ {| type := Some (JStr "potaActivation"); ref := "K-9999" |} ] |}.

(** ** More vocabulary *)

(** The parameter set with another [myRef] and [mySig]. *)
Definition with_my_pair (p : ParsedLinkParams) (r s : option string) : ParsedLinkParams :=
  {| myRef := r; mySig := s;
     theirRef := theirRef p; theirSig := theirSig p;
     freq := freq p; mode := mode p; time := time p;
     myCall := myCall p; theirCall := theirCall p |}.

(** The nine parameter names that the parser reads. *)
Definition recognized_keys : list string :=
  [ "myRef"; "mySig"; "theirRef"; "theirSig"; "freq"; "mode"; "time";
    "myCall"; "theirCall" ].

Definition is_upper (a : ascii) : bool :=
  let n := code a in (65 <=? n) && (n <=? 90).

Fixpoint no_upper (s : string) : bool :=
  match s with
  | EmptyString => true
  | String a t => negb (is_upper a) && no_upper t
  end.

(** Up to this magnitude every integer is a JavaScript number, so that
    [Num z] is the number itself and not the double nearest to [z]. *)
Definition exact_integer_limit : Z := 2 ^ 53.

(** A number that is neither [NaN] nor 0, or nothing. *)
Definition absent_or_nonzero (o : option jsnum) : Prop :=
  o = None \/ exists z, o = Some (Num z) /\ z <> 0.

(** ** The examples of the test file *)

Example parse_chase_only :
  parse "com.ham2k.polo://qso?theirCall=K6TEST&theirRef=W6/CT-006&theirSig=sota&freq=14285000&mode=CW"
  = Normal (Some {| myRef := None; mySig := None;
                    theirRef := Some "W6/CT-006"; theirSig := Some "sota";
                    freq := Some (Num 14285000); mode := Some "CW"; time := None;
                    myCall := None; theirCall := Some "K6TEST" |}).
Proof. reflexivity. Qed.

Example parse_all_parameters :
  parse "com.ham2k.polo://qso?myRef=K-1234&mySig=pota&theirRef=W6/CT-006&theirSig=sota&freq=14285000&mode=CW&time=1704067200000&myCall=N0CALL&theirCall=K6TEST"
  = Normal (Some {| myRef := Some "K-1234"; mySig := Some "pota";
                    theirRef := Some "W6/CT-006"; theirSig := Some "sota";
                    freq := Some (Num 14285000); mode := Some "CW";
                    time := Some (Num 1704067200000);
                    myCall := Some "N0CALL"; theirCall := Some "K6TEST" |}).
Proof. reflexivity. Qed.

Example parse_no_refs :
  parse "com.ham2k.polo://qso?freq=14285000&mode=CW" = Normal None.
Proof. reflexivity. Qed.

Example parse_iota :
  parse "com.ham2k.polo://qso?theirRef=TEST&theirSig=iota" = Normal None.
Proof. reflexivity. Qed.

Example parse_wrong_scheme :
  parse "https://example.com/qso?myRef=TEST&mySig=sota" = Normal None.
Proof. reflexivity. Qed.

Example parse_without_query :
  parse "com.ham2k.polo://qso" = Normal None.
Proof. reflexivity. Qed.

Example parse_normalizes_case :
  parse "com.ham2k.polo://qso?theirRef=w6/ct-006&theirSig=POTA&mode=cw&theirCall=k6test&myCall=n0call"
  = Normal (Some {| myRef := None; mySig := None;
                    theirRef := Some "w6/ct-006"; theirSig := Some "pota";
                    freq := None; mode := Some "CW"; time := None;
                    myCall := Some "N0CALL"; theirCall := Some "K6TEST" |}).
Proof. reflexivity. Qed.

Example build_derives_band_and_mode :
  @buildSuggestedQSO test_lib 1704067200000 hunt_pota_cw_portion
  = {| QSO._suggestedKey := "deeplink-1704067200000";
       QSO.their := {| call := None |}; QSO.our := {| call := None |};
       QSO.freq := Some (Num 14035000); QSO.band := Some "20m"; QSO.mode := Some "CW";
       QSO.startAtMillis := None;
       QSO.refs := Some [ {| type := Some (JStr "pota"); ref := "TEST" |} ] |}.
Proof. reflexivity. Qed.

(** ** Truthiness and the absent marker *)

Lemma truthy_str_true (s : string) : truthy_str s = true <-> s <> EmptyString.
Proof.
  destruct s; simpl; split; intro H; try discriminate; try reflexivity.
  now elim H.
Qed.

Lemma truthy_provided (o : option string) :
  truthy truthy_str o = true <-> provided o.
Proof.
  split.
  - destruct o as [s|]; simpl; intro H; [|discriminate].
    exists s. split; [reflexivity | now apply truthy_str_true].
  - intros (s & -> & Hs). now apply truthy_str_true.
Qed.

Lemma not_provided_falsy (o : option string) :
  ~ provided o -> truthy truthy_str o = false.
Proof.
  intro H. destruct (truthy truthy_str o) eqn:E; [|reflexivity].
  elim H. now apply truthy_provided.
Qed.

Lemma or_undefined_cases (o : option string) :
  or_undefined o = None \/ provided (or_undefined o).
Proof.
  unfold or_undefined. destruct (truthy truthy_str o) eqn:E.
  - right. now apply truthy_provided.
  - now left.
Qed.

Lemma or_undefined_truthy (o : option string) :
  truthy truthy_str (or_undefined o) = truthy truthy_str o.
Proof.
  unfold or_undefined. destruct (truthy truthy_str o) eqn:E; [exact E | reflexivity].
Qed.

(** ** The builder *)

Section BuilderFacts.
Context {lib : OperationData}.
Variable now : Z.
Variable p : ParsedLinkParams.

(** Only the last step touches [refs], and only the frequency and mode
    steps touch [freq], [band] and [mode]. *)
Lemma apply_refs_keeps (q : QSO.t) :
  QSO.freq (apply_refs p q) = QSO.freq q /\
  QSO.band (apply_refs p q) = QSO.band q /\
  QSO.mode (apply_refs p q) = QSO.mode q.
Proof.
  unfold apply_refs.
  destruct (theirRef p) as [r|], (theirSig p) as [s|]; try (now repeat split).
  destruct (truthy_str r && truthy_str s); now repeat split.
Qed.

Lemma apply_freq_keeps_refs (q : QSO.t) :
  QSO.refs (apply_freq p q) = QSO.refs q.
Proof.
  unfold apply_freq.
  destruct (freq p) as [f|]; [|reflexivity].
  destruct (truthy_num f); [|reflexivity].
  now destruct (negb (truthy truthy_str (mode p))).
Qed.

Lemma refs_of_build :
  QSO.refs (buildSuggestedQSO now p) =
  match theirRef p, theirSig p with
  | Some r, Some s =>
      if truthy_str r && truthy_str s
      then Some [ {| type := get_property TYPE_TO_HUNTING s; ref := r |} ]
      else None
  | _, _ => None
  end.
Proof.
  unfold buildSuggestedQSO.
  set (q0 := {| QSO._suggestedKey := _ |}).
  assert (H : forall q, QSO.refs q = None ->
            QSO.refs (apply_refs p q) =
            match theirRef p, theirSig p with
            | Some r, Some s =>
                if truthy_str r && truthy_str s
                then Some [ {| type := get_property TYPE_TO_HUNTING s; ref := r |} ]
                else None
            | _, _ => None
            end).
  { intros q Hq. unfold apply_refs.
    destruct (theirRef p) as [r|], (theirSig p) as [s|]; try exact Hq.
    destruct (truthy_str r && truthy_str s); [reflexivity | exact Hq]. }
  apply H.
  destruct (truthy truthy_num (time p)); simpl;
    destruct (truthy truthy_str (mode p)); simpl;
    rewrite apply_freq_keeps_refs;
    destruct (truthy truthy_str (myCall p)); simpl;
    destruct (truthy truthy_str (theirCall p)); reflexivity.
Qed.

Lemma mode_of_build :
  QSO.mode (buildSuggestedQSO now p) =
  if truthy truthy_str (mode p) then mode p
  else match freq p with
       | Some f => if truthy_num f then modeForFrequency f else None
       | None => None
       end.
Proof.
  unfold buildSuggestedQSO.
  set (q0 := {| QSO._suggestedKey := _ |}).
  match goal with |- QSO.mode (apply_refs p ?q) = _ =>
    destruct (apply_refs_keeps q) as (_ & _ & ->) end.
  assert (H0 : forall q, QSO.mode q = None ->
            QSO.mode (apply_freq p q) =
            if truthy truthy_str (mode p) then None
            else match freq p with
                 | Some f => if truthy_num f then modeForFrequency f else None
                 | None => None
                 end).
  { intros q Hq. unfold apply_freq.
    destruct (freq p) as [f|]; [destruct (truthy_num f)|];
      destruct (truthy truthy_str (mode p)); simpl; auto. }
  destruct (truthy truthy_num (time p)); simpl;
    destruct (truthy truthy_str (mode p)) eqn:Em; simpl; try reflexivity;
    rewrite H0, ?Em; try reflexivity;
    destruct (truthy truthy_str (myCall p)); simpl;
    destruct (truthy truthy_str (theirCall p)); reflexivity.
Qed.

Lemma freq_band_of_build :
  (QSO.freq (buildSuggestedQSO now p), QSO.band (buildSuggestedQSO now p)) =
  match freq p with
  | Some f => if truthy_num f then (Some f, bandForFrequency f) else (None, None)
  | None => (None, None)
  end.
Proof.
  unfold buildSuggestedQSO.
  set (q0 := {| QSO._suggestedKey := _ |}).
  match goal with |- (QSO.freq (apply_refs p ?q), QSO.band (apply_refs p ?q)) = _ =>
    destruct (apply_refs_keeps q) as (-> & -> & _) end.
  assert (H0 : forall q, QSO.freq q = None -> QSO.band q = None ->
            (QSO.freq (apply_freq p q), QSO.band (apply_freq p q)) =
            match freq p with
            | Some f => if truthy_num f then (Some f, bandForFrequency f) else (None, None)
            | None => (None, None)
            end).
  { intros q Hf Hb. unfold apply_freq.
    destruct (freq p) as [f|]; [destruct (truthy_num f)|];
      try destruct (negb (truthy truthy_str (mode p))); simpl; now rewrite ?Hf, ?Hb. }
  destruct (truthy truthy_num (time p)); simpl;
    destruct (truthy truthy_str (mode p)); simpl;
    apply H0;
    destruct (truthy truthy_str (myCall p)); simpl;
    destruct (truthy truthy_str (theirCall p)); reflexivity.
Qed.

End BuilderFacts.

(** Every hunting tag of the table is the code itself, never the
    activation tag. *)
Lemma hunting_tag_of_code (s : string) :
  In s ActivationCodes ->
  get_property TYPE_TO_HUNTING s = Some (JStr s) /\
  get_property TYPE_TO_ACTIVATION s = Some (JStr (s ++ "Activation")).
Proof.
  simpl. intros [<-|[<-|[<-|[<-|[<-|[<-|[]]]]]]]; split; reflexivity.
Qed.

(** C1. [buildSuggestedQSO] sets [refs] exactly when [theirRef] and
    [theirSig] are both provided (each a non-empty string); [refs] is then
    a list of one element, whose [type] is [TYPE_TO_HUNTING[theirSig]] and
    whose [ref] is [theirRef] unchanged.  For the six codes that tag is the
    code itself ("pota"), not the activation tag ("potaActivation"). *)
Theorem refs_iff_their_pair {lib : OperationData} (now : Z) (p : ParsedLinkParams) :
  (QSO.refs (buildSuggestedQSO now p) <> None <->
   provided (theirRef p) /\ provided (theirSig p)) /\
  (forall r s,
     theirRef p = Some r -> theirSig p = Some s ->
     r <> EmptyString -> s <> EmptyString ->
     QSO.refs (buildSuggestedQSO now p) =
       Some [ {| type := get_property TYPE_TO_HUNTING s; ref := r |} ] /\
     (In s ActivationCodes ->
      QSO.refs (buildSuggestedQSO now p) = Some [ {| type := Some (JStr s); ref := r |} ])).
Proof.
  rewrite refs_of_build. split; [split|].
  - destruct (theirRef p) as [r|], (theirSig p) as [s|]; try (intro H; now elim H).
    destruct (truthy_str r) eqn:Er, (truthy_str s) eqn:Es; simpl;
      try (intro H; now elim H).
    intros _. split; [exists r | exists s]; split; try reflexivity;
      now apply truthy_str_true.
  - intros [(r & -> & Hr) (s & -> & Hs)].
    apply truthy_str_true in Hr, Hs. rewrite Hr, Hs. discriminate.
  - intros r s -> -> Hr Hs.
    apply truthy_str_true in Hr, Hs. rewrite Hr, Hs. simpl.
    split; [reflexivity|].
    intro Hin. now destruct (hunting_tag_of_code s Hin) as [-> _].
Qed.

Lemma refs_iff_their_pair_witness :
  QSO.refs (@buildSuggestedQSO test_lib 0 hunt_pota_cw_portion)
  = Some [ {| type := Some (JStr "pota"); ref := "TEST" |} ].
Proof.
  refine (proj2 (proj2 (@refs_iff_their_pair test_lib 0 hunt_pota_cw_portion)
                   "TEST" "pota" eq_refl eq_refl _ _) _).
  - discriminate.
  - discriminate.
  - simpl. tauto.
Defined.

(** C5. When [mode] is provided (a non-empty string), the record has that
    mode, whatever [freq] is and whatever the mode lookup returns. *)
Theorem explicit_mode_wins {lib : OperationData} (now : Z) (p : ParsedLinkParams)
    (m : string) :
  mode p = Some m -> m <> EmptyString ->
  QSO.mode (buildSuggestedQSO now p) = Some m.
Proof.
  intros Hm Hne. rewrite mode_of_build, Hm. simpl.
  apply truthy_str_true in Hne. now rewrite Hne.
Qed.

Lemma explicit_mode_wins_witness :
  QSO.mode (@buildSuggestedQSO test_lib 0 hunt_sota_explicit_cw) = Some "CW"
  /\ modeForFrequency (OperationData := test_lib) (Num 14285000) = Some "SSB".
Proof.
  split.
  - apply (@explicit_mode_wins test_lib 0 hunt_sota_explicit_cw "CW");
      [reflexivity | discriminate].
  - reflexivity.
Defined.

(** C6, as stated, fails for the frequency 0, which the parser returns for
    [freq=0]: the builder takes 0 for an absent [freq]. *)
Lemma freq_zero_is_dropped :
  exists p,
    parse "com.ham2k.polo://qso?theirRef=TEST&theirSig=sota&freq=0" = Normal (Some p) /\
    freq p = Some (Num 0) /\
    QSO.freq (@buildSuggestedQSO test_lib 0 p) = None /\
    ~ @freq_is_copied test_lib 0 p.
Proof.
  eexists. split; [reflexivity|]. split; [reflexivity|]. split; [reflexivity|].
  intro H. destruct (H (Num 0) eq_refl) as [H0 _]. discriminate H0.
Qed.

(** C6, amended.  When [freq] is a number other than 0 (and not [NaN]),
    the record has that [freq], the band that [bandForFrequency] gives for
    it and, when [mode] is absent, the mode that [modeForFrequency] gives
    for it.  A [freq] of 0 or [NaN] is taken for absent: no [freq], no
    [band], and no derived mode. *)
Theorem freq_band_mode {lib : OperationData} (now : Z) (p : ParsedLinkParams) :
  let qso := buildSuggestedQSO now p in
  (forall z, freq p = Some (Num z) -> z <> 0 ->
     QSO.freq qso = Some (Num z) /\
     QSO.band qso = bandForFrequency (Num z) /\
     (mode p = None -> QSO.mode qso = modeForFrequency (Num z))) /\
  (freq p = Some (Num 0) \/ freq p = Some NaN ->
     QSO.freq qso = None /\ QSO.band qso = None /\
     (mode p = None -> QSO.mode qso = None)).
Proof.
  intro qso. subst qso.
  pose proof (freq_band_of_build now p) as Hfb.
  pose proof (mode_of_build now p) as Hm.
  split.
  - intros z Hz Hnz. rewrite Hz in Hfb, Hm. simpl in Hfb, Hm.
    assert (E : (z =? 0) = false) by now apply Z.eqb_neq.
    rewrite E in Hfb, Hm. simpl in Hfb, Hm.
    injection Hfb as -> ->. repeat split.
    intro Hmode. now rewrite Hm, Hmode.
  - intros [Hz|Hz]; rewrite Hz in Hfb, Hm; simpl in Hfb, Hm;
      injection Hfb as -> ->; repeat split;
      intro Hmode; now rewrite Hm, Hmode.
Qed.

Lemma freq_band_mode_witness :
  QSO.freq (@buildSuggestedQSO test_lib 0 hunt_pota_cw_portion) = Some (Num 14035000) /\
  QSO.band (@buildSuggestedQSO test_lib 0 hunt_pota_cw_portion) = Some "20m" /\
  QSO.mode (@buildSuggestedQSO test_lib 0 hunt_pota_cw_portion) = Some "CW".
Proof.
  destruct (proj1 (@freq_band_mode test_lib 0 hunt_pota_cw_portion) 14035000 eq_refl)
    as (Hf & Hb & Hm).
  - discriminate.
  - split; [exact Hf|]. split; [exact Hb|]. exact (Hm eq_refl).
Defined.

(** ** [parseInt] *)

Lemma digit_not_white (a : ascii) : is_digit a = true -> is_white a = false.
Proof.
  unfold is_digit, is_white. intro H.
  apply andb_true_iff in H as [H1 H2].
  apply Z.leb_le in H1, H2.
  apply orb_false_iff; split; [apply orb_false_iff; split|].
  - apply andb_false_iff. right. apply Z.leb_gt. lia.
  - apply Z.eqb_neq. lia.
  - apply Z.eqb_neq. lia.
Qed.

Lemma digit_not_sign (a : ascii) (t : string) :
  is_digit a = true -> sign_and_rest (String a t) = (1, String a t).
Proof.
  intro H.
  destruct a as [[] [] [] [] [] [] [] []];
    try reflexivity; vm_compute in H; discriminate H.
Qed.

Lemma sign_and_rest_split (s : string) :
  exists sg, is_sign sg /\ s = sg ++ snd (sign_and_rest s) /\
             fst (sign_and_rest s) = sign_of sg.
Proof.
  unfold is_sign.
  destruct s as [|a t]; [exists EmptyString; simpl; auto|].
  destruct a as [[] [] [] [] [] [] [] []];
    first [ exists EmptyString; simpl; split; [auto | split; reflexivity]
          | exists "-"; simpl; split; [auto | split; reflexivity]
          | exists "+"; simpl; split; [auto | split; reflexivity] ].
Qed.

Lemma trimStart_split (s : string) :
  exists ws, all_white ws = true /\ s = ws ++ trimStart s.
Proof.
  induction s as [|a t (ws & Hws & Ht)]; [now exists EmptyString|].
  simpl. destruct (is_white a) eqn:Ea.
  - exists (String a ws). simpl. rewrite Ea, Hws. split; [reflexivity|].
    now rewrite <- Ht.
  - now exists EmptyString.
Qed.

Lemma trimStart_white (ws s : string) :
  all_white ws = true -> trimStart (ws ++ s) = trimStart s.
Proof.
  induction ws as [|a t IH]; simpl; [reflexivity|].
  intro H. apply andb_true_iff in H as [Ha Ht]. rewrite Ha. now apply IH.
Qed.

Lemma digits_prefix_split (s : string) :
  exists rest, s = digits_prefix s ++ rest /\ all_digits (digits_prefix s) = true.
Proof.
  induction s as [|a t (rest & Ht & Hd)]; [now exists EmptyString|].
  simpl. destruct (is_digit a) eqn:Ea.
  - exists rest. simpl. rewrite Ea, Hd. split; [now rewrite <- Ht | reflexivity].
  - now exists (String a t).
Qed.

Lemma digits_prefix_app (ds rest : string) :
  all_digits ds = true ->
  digits_prefix (ds ++ rest) = ds ++ digits_prefix rest.
Proof.
  induction ds as [|a t IH]; simpl; [reflexivity|].
  intro H. apply andb_true_iff in H as [Ha Ht]. rewrite Ha. now rewrite IH.
Qed.

Lemma digits_prefix_stops (s : string) :
  starts_with_digit s = false -> digits_prefix s = EmptyString.
Proof.
  destruct s as [|a t]; simpl; [reflexivity|]. now intros ->.
Qed.

Lemma append_empty_r (s : string) : s ++ EmptyString = s.
Proof. induction s as [|a t IH]; simpl; [reflexivity | now rewrite IH]. Qed.

Lemma decimal_value_from_nonneg (s : string) :
  forall acc, 0 <= acc -> all_digits s = true -> 0 <= decimal_value_from acc s.
Proof.
  induction s as [|a t IH]; simpl; intros acc Hacc H; [exact Hacc|].
  apply andb_true_iff in H as [Ha Ht].
  apply IH; [|exact Ht].
  unfold is_digit in Ha. apply andb_true_iff in Ha as [H1 _].
  apply Z.leb_le in H1. lia.
Qed.

(** After the white space and the sign, what counts is the run of digits. *)
Lemma parseInt_shape (ws sg x : string) :
  all_white ws = true -> is_sign sg ->
  starts_with_digit x = true ->
  parseInt (ws ++ sg ++ x) = Num (sign_of sg * decimal_value (digits_prefix x)).
Proof.
  intros Hws Hsg Hx.
  destruct x as [|a t]; [discriminate Hx|]. simpl in Hx.
  unfold parseInt. rewrite trimStart_white by exact Hws.
  assert (Hd : truthy_str (digits_prefix (String a t)) = true)
    by (simpl; now rewrite Hx).
  destruct Hsg as [->|[->| ->]].
  - change (EmptyString ++ String a t) with (String a t).
    cbn [trimStart]. rewrite (digit_not_white a Hx).
    rewrite (digit_not_sign a t Hx). now rewrite Hd.
  - change (trimStart ("+" ++ String a t)) with (String "+"%char (String a t)).
    cbn [sign_and_rest]. now rewrite Hd.
  - change (trimStart ("-" ++ String a t)) with (String "-"%char (String a t)).
    cbn [sign_and_rest]. now rewrite Hd.
Qed.

(** The value of a leading integer that is followed by no further digit. *)
Lemma parseInt_leading_integer (ws sg ds rest : string) :
  all_white ws = true -> is_sign sg -> is_digit_string ds = true ->
  starts_with_digit rest = false ->
  parseInt (ws ++ sg ++ ds ++ rest) = Num (sign_of sg * decimal_value ds).
Proof.
  intros Hws Hsg Hds Hrest.
  apply andb_true_iff in Hds as [Hne Hall].
  rewrite parseInt_shape; try assumption.
  - now rewrite digits_prefix_app, (digits_prefix_stops rest Hrest), append_empty_r.
  - destruct ds as [|a t]; [discriminate Hne|]. simpl in *.
    now apply andb_true_iff in Hall as [-> _].
Qed.

Lemma parseInt_digit_string (s : string) :
  is_digit_string s = true ->
  parseInt s = Num (decimal_value s) /\ 0 <= decimal_value s.
Proof.
  intro H. split.
  - pose proof (parseInt_leading_integer EmptyString EmptyString s EmptyString
                  eq_refl (or_introl eq_refl) H eq_refl) as E.
    simpl in E. rewrite append_empty_r in E. rewrite E.
    f_equal. unfold sign_of. simpl. destruct (decimal_value s); reflexivity.
  - apply andb_true_iff in H as [_ H].
    now apply decimal_value_from_nonneg.
Qed.

Lemma parseInt_number_iff (s : string) :
  (exists z, parseInt s = Num z) <-> begins_with_integer s.
Proof.
  split.
  - intros [z Hz]. unfold parseInt in Hz.
    destruct (trimStart_split s) as (ws & Hws & Hs).
    destruct (sign_and_rest_split (trimStart s)) as (sg & Hsg & Ht & _).
    destruct (sign_and_rest (trimStart s)) as [sign rest] eqn:Esr. simpl in Ht.
    destruct (digits_prefix_split rest) as (tail & Hr & Hd).
    destruct (truthy_str (digits_prefix rest)) eqn:Et; [|discriminate Hz].
    exists ws, sg, (digits_prefix rest), tail.
    repeat split; try assumption.
    + now rewrite <- Hr, <- Ht.
    + unfold is_digit_string. now rewrite Et, Hd.
  - intros (ws & sg & ds & rest & -> & Hws & Hsg & Hds).
    eexists. apply parseInt_shape; try assumption.
    apply andb_true_iff in Hds as [Hne Hall].
    destruct ds as [|a t]; [discriminate Hne|]. simpl in *.
    now apply andb_true_iff in Hall as [-> _].
Qed.

Lemma parseInt_NaN_iff (s : string) :
  parseInt s = NaN <-> ~ begins_with_integer s.
Proof.
  rewrite <- parseInt_number_iff. split.
  - intros -> [z Hz]. discriminate Hz.
  - intro H. destruct (parseInt s) as [|z]; [reflexivity|].
    elim H. now exists z.
Qed.

Example parseInt_examples :
  parseInt "14285000" = Num 14285000 /\ parseInt "12abc" = Num 12 /\
  parseInt "-5" = Num (-5) /\ parseInt " 42" = Num 42 /\
  parseInt "abc" = NaN /\ parseInt "" = NaN /\ parseInt "+-5" = NaN /\
  parseInt "0x10" = Num 0.
Proof. repeat split. Qed.

(** ** The parser *)

Section ParserFacts.
Context {host : Host}.

Lemma parse_carries (url : string) (params : SearchParams) :
  carries url params -> parseDeepLinkURL url = Normal (parseParams params).
Proof.
  intros (Hs & q & Hq & Hne & Hp).
  unfold parseDeepLinkURL, parseDeepLinkURL_try.
  rewrite Hs, Hq. simpl.
  apply truthy_str_true in Hne. rewrite Hne. simpl.
  now rewrite Hp.
Qed.

Lemma parse_accepts_inv (url : string) (p : ParsedLinkParams) :
  parseDeepLinkURL url = Normal (Some p) ->
  exists params, carries url params /\ parseParams params = Some p.
Proof.
  unfold parseDeepLinkURL, parseDeepLinkURL_try, carries.
  destruct (startsWith url URL_SCHEME) eqn:Hs; simpl; [|discriminate].
  destruct (queryString_of _) as [q|] eqn:Hq; simpl; [|discriminate].
  destruct (truthy_str q) eqn:Hne; simpl; [|discriminate].
  destruct (newURLSearchParams q) as [params|e] eqn:Hp; simpl; [|discriminate].
  intro H. exists params. split; [|congruence].
  split; [reflexivity|]. exists q. repeat split; try assumption.
  now apply truthy_str_true.
Qed.

(** The parser never throws: the exceptions of the [try] block end in
    [null]. *)
Lemma parse_returns (url : string) :
  exists r, parseDeepLinkURL url = Normal r.
Proof.
  unfold parseDeepLinkURL.
  destruct (negb (startsWith url URL_SCHEME)); [now exists None|].
  destruct (parseDeepLinkURL_try url) as [r|e]; simpl; [now exists r | now exists None].
Qed.

(** What an accepted parameter set looks like. *)
Lemma parseParams_accepts_inv (params : SearchParams) (p : ParsedLinkParams) :
  parseParams params = Some p ->
  (complete (read_myRef params) (read_mySig params) \/
   complete (read_theirRef params) (read_theirSig params)) /\
  unknown_sig (read_mySig params) = false /\
  unknown_sig (read_theirSig params) = false /\
  myRef p = read_myRef params /\ mySig p = read_mySig params /\
  theirRef p = read_theirRef params /\ theirSig p = read_theirSig params /\
  freq p = parseFrequency (params "freq") /\
  time p = (if truthy truthy_str (params "time")
            then option_map parseInt (params "time") else None).
Proof.
  unfold parseParams.
  destruct (truthy truthy_str (read_myRef params)) eqn:E1,
           (truthy truthy_str (read_mySig params)) eqn:E2,
           (truthy truthy_str (read_theirRef params)) eqn:E3,
           (truthy truthy_str (read_theirSig params)) eqn:E4;
    simpl; try discriminate;
    destruct (unknown_sig (read_mySig params)); try discriminate;
    destruct (unknown_sig (read_theirSig params)); try discriminate;
    intro H; injection H as <-; simpl;
    (split; [|repeat split; reflexivity]);
    try (left; split; now apply truthy_provided);
    right; split; now apply truthy_provided.
Qed.

(** Without a complete pair the parameters are rejected. *)
Lemma parseParams_no_pair (params : SearchParams) :
  ~ complete (read_myRef params) (read_mySig params) ->
  ~ complete (read_theirRef params) (read_theirSig params) ->
  parseParams params = None.
Proof.
  intros Hmy Htheir.
  destruct (parseParams params) as [p|] eqn:E; [|reflexivity].
  apply parseParams_accepts_inv in E as ([H|H] & _); contradiction.
Qed.

(** Whether a parameter set is accepted depends on the four reference
    parameters only. *)
Lemma acceptance_by_refs (a b : SearchParams) :
  same_refs a b ->
  parseParams a = None <-> parseParams b = None.
Proof.
  intros (H1 & H2 & H3 & H4).
  unfold parseParams, read_myRef, read_mySig, read_theirRef, read_theirSig.
  rewrite H1, H2, H3, H4.
  destruct (negb _ && negb _); [tauto|].
  destruct (unknown_sig _); [tauto|].
  destruct (unknown_sig _); [tauto|].
  split; discriminate.
Qed.

Lemma same_refs_accepted (url url' : string) (params params' : SearchParams)
    (p : ParsedLinkParams) :
  carries url params -> parseDeepLinkURL url = Normal (Some p) ->
  carries url' params' -> same_refs params params' ->
  exists p', parseDeepLinkURL url' = Normal (Some p').
Proof.
  intros Hc Hp Hc' Hsame.
  rewrite (parse_carries _ _ Hc) in Hp. rewrite (parse_carries _ _ Hc').
  destruct (parseParams params') as [p'|] eqn:E; [now exists p'|].
  apply (acceptance_by_refs params params' Hsame) in E. congruence.
Qed.

(** A sig whose lookup in [TYPE_TO_ACTIVATION] is [undefined] is rejected,
    whatever the rest of the parameters. *)
Lemma undefined_sig_rejected (url : string) (params : SearchParams) (s : string) :
  carries url params ->
  read_mySig params = Some s \/ read_theirSig params = Some s ->
  get_property TYPE_TO_ACTIVATION s = None ->
  parseDeepLinkURL url = Normal None.
Proof.
  intros Hc Hs Hg. rewrite (parse_carries _ _ Hc). f_equal.
  destruct (parseParams params) as [p|] eqn:E; [|reflexivity].
  apply parseParams_accepts_inv in E as (_ & Hu1 & Hu2 & _).
  assert (Hne : truthy_str s = true).
  { destruct Hs as [Hs|Hs];
      [pose proof (or_undefined_cases (option_map toLowerCase (params "mySig"))) as [H|H]
      |pose proof (or_undefined_cases (option_map toLowerCase (params "theirSig"))) as [H|H]];
      unfold read_mySig, read_theirSig in Hs; rewrite Hs in H; try discriminate H;
      destruct H as (s' & [= <-] & Hs'); now apply truthy_str_true. }
  destruct Hs as [Hs|Hs]; [rewrite Hs in Hu1 | rewrite Hs in Hu2];
    simpl in *; rewrite Hne, Hg in *; discriminate.
Qed.

End ParserFacts.

(** The lookup is [undefined] exactly for the names that are neither a code
    of the table nor a member of [Object.prototype]. *)
Lemma get_property_undefined (s : string) :
  get_property TYPE_TO_ACTIVATION s = None <->
  ~ In s ActivationCodes /\ ~ In s Object_prototype.
Proof.
  unfold get_property.
  assert (Hown : own_property TYPE_TO_ACTIVATION s = None <-> ~ In s ActivationCodes).
  { unfold TYPE_TO_ACTIVATION, ActivationCodes. cbn [own_property In].
    destruct (String.eqb_spec "sota" s); [split; [discriminate | tauto]|].
    destruct (String.eqb_spec "pota" s); [split; [discriminate | tauto]|].
    destruct (String.eqb_spec "wwff" s); [split; [discriminate | tauto]|].
    destruct (String.eqb_spec "gma" s); [split; [discriminate | tauto]|].
    destruct (String.eqb_spec "wca" s); [split; [discriminate | tauto]|].
    destruct (String.eqb_spec "zlota" s); [split; [discriminate | tauto]|].
    tauto. }
  destruct (own_property TYPE_TO_ACTIVATION s) as [v|].
  - split; [discriminate|]. intros [H _]. apply Hown in H. discriminate H.
  - destruct (existsb (String.eqb s) Object_prototype) eqn:E.
    + split; [discriminate|]. intros [_ H]. elim H.
      apply existsb_exists in E as (x & Hx & Ex).
      apply String.eqb_eq in Ex. now subst x.
    + split; [|reflexivity]. intros _. split; [now apply Hown|].
      intro Hin. assert (existsb (String.eqb s) Object_prototype = true).
      { apply existsb_exists. exists s. split; [exact Hin | apply String.eqb_refl]. }
      congruence.
Qed.

(** C2. An accepted URL has a complete pair: [myRef] and [mySig] both
    provided, or [theirRef] and [theirSig] both provided; and a URL whose
    parameters give neither pair complete is answered with [null]. *)
Theorem accepted_has_complete_pair {host : Host} (url : string) :
  (forall p, parseDeepLinkURL url = Normal (Some p) ->
     complete (myRef p) (mySig p) \/ complete (theirRef p) (theirSig p)) /\
  (forall params, carries url params ->
     ~ complete (read_myRef params) (read_mySig params) ->
     ~ complete (read_theirRef params) (read_theirSig params) ->
     parseDeepLinkURL url = Normal None).
Proof.
  split.
  - intros p Hp. apply parse_accepts_inv in Hp as (params & _ & Hp).
    apply parseParams_accepts_inv in Hp as (H & _ & _ & -> & -> & -> & -> & _).
    exact H.
  - intros params Hc Hmy Htheir. rewrite (parse_carries _ _ Hc).
    now rewrite parseParams_no_pair.
Qed.

Lemma accepted_has_complete_pair_witness :
  parse url_lone_myRef = Normal None /\
  (complete (myRef summit_to_summit) (mySig summit_to_summit) \/
   complete (theirRef summit_to_summit) (theirSig summit_to_summit)).
Proof.
  split.
  - apply (proj2 (@accepted_has_complete_pair ascii_host url_lone_myRef)
             (URLSearchParams_of "myRef=W6/CT-006")).
    + carries_by_computation.
    + intros [_ (s & H & _)]. vm_compute in H. discriminate H.
    + intros [(s & H & _) _]. vm_compute in H. discriminate H.
  - apply (proj1 (@accepted_has_complete_pair ascii_host url_summit_to_summit)
             summit_to_summit).
    reflexivity.
Defined.

(** C3, at [mySig=constructor].  The name is none of the six codes, yet
    [TYPE_TO_ACTIVATION["constructor"]] is the member inherited from
    [Object.prototype], which is truthy: the URL is accepted, with that
    name as [mySig]. *)
Theorem inherited_name_accepted_as_sig :
  ~ In "constructor" ActivationCodes /\
  @read_mySig ascii_host (URLSearchParams_of "myRef=X&mySig=constructor")
    = Some "constructor" /\
  get_property TYPE_TO_ACTIVATION "constructor" = Some (JInherited "constructor") /\
  parse url_sig_constructor
    = Normal (Some {| myRef := Some "X"; mySig := Some "constructor";
                      theirRef := None; theirSig := None;
                      freq := None; mode := None; time := None;
                      myCall := None; theirCall := None |}).
Proof.
  split; [|repeat split].
  simpl. intros [H|[H|[H|[H|[H|[H|[]]]]]]]; discriminate H.
Qed.

(** C4, as stated, fails: a lone [myRef] beside a complete [theirRef] and
    [theirSig] is accepted. *)
Lemma partial_pair_beside_complete_pair :
  ~ @partial_pair_rejected ascii_host url_partial_beside_complete.
Proof.
  intro H.
  specialize (H (URLSearchParams_of "myRef=K-1234&theirRef=W6/CT-006&theirSig=sota")).
  assert (E : parse url_partial_beside_complete = Normal None).
  { apply H.
    - carries_by_computation.
    - left. left. split; [|reflexivity].
      exists "K-1234". split; [reflexivity | discriminate]. }
  vm_compute in E. discriminate E.
Qed.

(** A sig that is absent or one of the six codes passes the validation. *)
Lemma code_is_known (sig : option string) :
  (forall s, sig = Some s -> In s ActivationCodes) -> unknown_sig sig = false.
Proof.
  destruct sig as [s|]; [|reflexivity].
  intro H. specialize (H s eq_refl). simpl in H.
  repeat (destruct H as [<-|H]; [reflexivity|]). destruct H.
Qed.

(** Parameters with a complete pair pass or fail on their sigs alone. *)
Lemma parseParams_complete_pair {host : Host} (params : SearchParams) :
  complete (read_myRef params) (read_mySig params) \/
  complete (read_theirRef params) (read_theirSig params) ->
  (unknown_sig (read_mySig params) = false ->
   unknown_sig (read_theirSig params) = false ->
   exists p, parseParams params = Some p) /\
  (unknown_sig (read_mySig params) = true \/
   unknown_sig (read_theirSig params) = true ->
   parseParams params = None).
Proof.
  intro Hpair.
  assert (Hgate : negb (truthy truthy_str (read_myRef params) &&
                        truthy truthy_str (read_mySig params)) &&
                  negb (truthy truthy_str (read_theirRef params) &&
                        truthy truthy_str (read_theirSig params)) = false).
  { destruct Hpair as [[H1 H2]|[H1 H2]];
      apply truthy_provided in H1, H2; rewrite H1, H2; simpl;
      [reflexivity | apply andb_false_r]. }
  unfold parseParams. rewrite Hgate. split.
  - intros -> ->. eexists. reflexivity.
  - intros [-> | ->]; [reflexivity|].
    now destruct (unknown_sig (read_mySig params)).
Qed.

(** C4, amended.  A partially specified pair makes the parse [null] when
    the other pair is not complete.  Beside a complete pair it does not:
    the URL is then accepted when no sig that is present fails the lookup
    in [TYPE_TO_ACTIVATION] (so when each is one of the six codes), and
    rejected when one does; the result of an accepted URL holds the
    members of both pairs as they were read, the lone one included. *)
Theorem lone_partial_pair_rejected {host : Host} (url : string) (params : SearchParams) :
  carries url params ->
  ((partially_specified (read_myRef params) (read_mySig params) /\
    ~ complete (read_theirRef params) (read_theirSig params)) \/
   (partially_specified (read_theirRef params) (read_theirSig params) /\
    ~ complete (read_myRef params) (read_mySig params)) ->
   parseDeepLinkURL url = Normal None) /\
  (forall p, parseDeepLinkURL url = Normal (Some p) ->
     myRef p = read_myRef params /\ mySig p = read_mySig params /\
     theirRef p = read_theirRef params /\ theirSig p = read_theirSig params) /\
  (complete (read_myRef params) (read_mySig params) \/
   complete (read_theirRef params) (read_theirSig params) ->
   (unknown_sig (read_mySig params) = false ->
    unknown_sig (read_theirSig params) = false ->
    exists p, parseDeepLinkURL url = Normal (Some p)) /\
   ((forall s, read_mySig params = Some s -> In s ActivationCodes) ->
    (forall s, read_theirSig params = Some s -> In s ActivationCodes) ->
    exists p, parseDeepLinkURL url = Normal (Some p)) /\
   (unknown_sig (read_mySig params) = true \/
    unknown_sig (read_theirSig params) = true ->
    parseDeepLinkURL url = Normal None)).
Proof.
  intro Hc. rewrite (parse_carries _ _ Hc). split; [|split].
  - assert (Hpartial : forall r s, partially_specified r s -> ~ complete r s).
    { intros r s [[_ ->]|[-> _]] [(x & Hx & _) (y & Hy & _)]; discriminate. }
    intros [[Hp Hn]|[Hp Hn]]; f_equal; apply parseParams_no_pair;
      try assumption; now apply Hpartial.
  - intros p [= Hp].
    apply parseParams_accepts_inv in Hp as (_ & _ & _ & -> & -> & -> & -> & _).
    repeat split.
  - intro Hpair.
    destruct (parseParams_complete_pair params Hpair) as [Hyes Hno].
    split; [|split].
    + intros H1 H2. destruct (Hyes H1 H2) as [p ->]. now exists p.
    + intros H1 H2.
      destruct (Hyes (code_is_known _ H1) (code_is_known _ H2)) as [p ->].
      now exists p.
    + intro H. now rewrite (Hno H).
Qed.

Lemma lone_partial_pair_rejected_witness :
  parse url_lone_myRef = Normal None /\
  exists p, parse url_partial_beside_complete = Normal (Some p).
Proof.
  split.
  - apply (proj1 (@lone_partial_pair_rejected ascii_host url_lone_myRef
                    (URLSearchParams_of "myRef=W6/CT-006")
                    ltac:(carries_by_computation))).
    left. split.
    + left. split; [|reflexivity].
      exists "W6/CT-006". split; [reflexivity | discriminate].
    + intros [(s & H & _) _]. vm_compute in H. discriminate H.
  - refine (proj1 (proj2 (proj2 (proj2
             (@lone_partial_pair_rejected ascii_host url_partial_beside_complete
                (URLSearchParams_of "myRef=K-1234&theirRef=W6/CT-006&theirSig=sota")
                ltac:(carries_by_computation))) _)) _ _).
    + right. split; [exists "W6/CT-006" | exists "sota"];
        (split; [reflexivity | discriminate]).
    + intros s H. vm_compute in H. discriminate H.
    + intros s H. vm_compute in H. injection H as <-. simpl. tauto.
Defined.

(** C7, as stated, fails: [freq=12abc] is no valid integer string, and the
    result has the frequency 12. *)
Lemma freq_with_suffix_is_read :
  ~ @freq_is_strict ascii_host url_freq_with_suffix.
Proof.
  intro H.
  destruct (H (URLSearchParams_of "theirRef=TEST&theirSig=sota&freq=12abc")
              {| myRef := None; mySig := None;
                 theirRef := Some "TEST"; theirSig := Some "sota";
                 freq := Some (Num 12); mode := None; time := None;
                 myCall := None; theirCall := None |}
              "12abc") as [_ Habsent].
  - carries_by_computation.
  - reflexivity.
  - reflexivity.
  - specialize (Habsent eq_refl). discriminate Habsent.
Qed.

(** The run of digits that [parseInt] reads ends where no digit follows. *)
Lemma digits_prefix_maximal (s : string) :
  exists rest, s = digits_prefix s ++ rest /\
               all_digits (digits_prefix s) = true /\
               starts_with_digit rest = false.
Proof.
  induction s as [|a t (rest & Ht & Hd & Hr)]; [now exists EmptyString|].
  simpl. destruct (is_digit a) eqn:Ea.
  - exists rest. simpl. rewrite Ea, Hd. repeat split; [now rewrite <- Ht | exact Hr].
  - exists (String a t). repeat split. exact Ea.
Qed.

(** A string that begins with an integer is white space, a sign, the
    digits of the integer and a rest that begins with no digit. *)
Lemma leading_integer_parts (s : string) :
  begins_with_integer s ->
  exists ws sg ds rest,
    s = ws ++ sg ++ ds ++ rest /\ all_white ws = true /\ is_sign sg /\
    is_digit_string ds = true /\ starts_with_digit rest = false.
Proof.
  intro Hb. apply parseInt_number_iff in Hb as [z Hz]. unfold parseInt in Hz.
  destruct (trimStart_split s) as (ws & Hws & Hs).
  destruct (sign_and_rest_split (trimStart s)) as (sg & Hsg & Ht & _).
  destruct (sign_and_rest (trimStart s)) as [sign rest] eqn:Esr. simpl in Ht.
  destruct (digits_prefix_maximal rest) as (tail & Hr & Hd & Htail).
  destruct (truthy_str (digits_prefix rest)) eqn:Et; [|discriminate Hz].
  exists ws, sg, (digits_prefix rest), tail.
  repeat split; try assumption.
  - now rewrite <- Hr, <- Ht.
  - unfold is_digit_string. now rewrite Et, Hd.
Qed.

(** C7, amended.  In the result of an accepted URL, [freq] is what
    [parseInt] reads at the start of the parameter.  When the parameter is
    white space, an optional sign, decimal digits and a rest that begins
    with no digit, [freq] is the integer of those digits with that sign, as
    long as it is at most [2^53] in magnitude: a string of digits gives the
    non-negative integer itself, ["12abc"] gives 12, ["-5"] gives -5.
    Every parameter that begins with an integer has this form, and gives a
    number.  [freq] is absent when the parameter is missing, empty, or
    begins with no integer.  The value of [freq] never causes [null]: every
    URL with the same four reference parameters is accepted as well. *)
Theorem freq_follows_parseInt {host : Host} (url : string) (params : SearchParams)
    (p : ParsedLinkParams) :
  carries url params ->
  parseDeepLinkURL url = Normal (Some p) ->
  (forall s, params "freq" = Some s ->
     (is_digit_string s = true -> decimal_value s <= exact_integer_limit ->
        freq p = Some (Num (decimal_value s)) /\ 0 <= decimal_value s) /\
     (forall ws sg ds rest,
        s = ws ++ sg ++ ds ++ rest ->
        all_white ws = true -> is_sign sg -> is_digit_string ds = true ->
        starts_with_digit rest = false ->
        decimal_value ds <= exact_integer_limit ->
        freq p = Some (Num (sign_of sg * decimal_value ds))) /\
     (begins_with_integer s ->
        (exists z, freq p = Some (Num z)) /\
        (exists ws sg ds rest,
           s = ws ++ sg ++ ds ++ rest /\ all_white ws = true /\ is_sign sg /\
           is_digit_string ds = true /\ starts_with_digit rest = false)) /\
     (~ begins_with_integer s -> freq p = None)) /\
  (params "freq" = None -> freq p = None) /\
  (forall url' params', carries url' params' -> same_refs params params' ->
     exists p', parseDeepLinkURL url' = Normal (Some p')).
Proof.
  intros Hc Hp.
  assert (Hf : freq p = parseFrequency (params "freq")).
  { pose proof Hp as Hp'. rewrite (parse_carries _ _ Hc) in Hp'.
    injection Hp' as Hp'.
    now apply parseParams_accepts_inv in Hp' as (_ & _ & _ & _ & _ & _ & _ & Hf & _). }
  assert (Hnum : forall s z, params "freq" = Some s -> parseInt s = Num z ->
                             freq p = Some (Num z)).
  { intros s z Hs Hz. rewrite Hf, Hs. unfold parseFrequency. simpl.
    assert (Hne : truthy_str s = true).
    { destruct s; [|reflexivity]. vm_compute in Hz. discriminate Hz. }
    now rewrite Hne, Hz. }
  split; [|split].
  - intros s Hs. split; [|split; [|split]].
    + intros Hd _. destruct (parseInt_digit_string s Hd) as [E Hpos].
      split; [exact (Hnum s _ Hs E) | exact Hpos].
    + intros ws sg ds rest -> Hws Hsg Hds Hrest _.
      apply (Hnum _ _ Hs). now apply parseInt_leading_integer.
    + intro Hb. split; [|now apply leading_integer_parts].
      apply parseInt_number_iff in Hb as [z Hz].
      exists z. exact (Hnum s z Hs Hz).
    + intro Hb. apply parseInt_NaN_iff in Hb.
      rewrite Hf, Hs. unfold parseFrequency. simpl. rewrite Hb.
      now destruct (truthy_str s).
  - intro Hs. now rewrite Hf, Hs.
  - intros url' params' Hc' Hsame.
    exact (same_refs_accepted url url' params params' p Hc Hp Hc' Hsame).
Qed.

Lemma freq_follows_parseInt_witness :
  (Some (Num 14285000) = Some (Num (decimal_value "14285000")) /\
   0 <= decimal_value "14285000") /\
  Some (Num (-5)) = Some (Num (sign_of "-" * decimal_value "5")).
Proof.
  split.
  - refine (proj1 (proj1 (@freq_follows_parseInt ascii_host url_freq_digits
              (URLSearchParams_of "theirRef=TEST&theirSig=sota&freq=14285000")
              {| myRef := None; mySig := None;
                 theirRef := Some "TEST"; theirSig := Some "sota";
                 freq := Some (Num 14285000); mode := None; time := None;
                 myCall := None; theirCall := None |}
              ltac:(carries_by_computation) eq_refl) "14285000" eq_refl) eq_refl _).
    vm_compute. discriminate.
  - refine (proj1 (proj2 (proj1 (@freq_follows_parseInt ascii_host url_freq_negative
              (URLSearchParams_of "theirRef=TEST&theirSig=sota&freq=-5")
              {| myRef := None; mySig := None;
                 theirRef := Some "TEST"; theirSig := Some "sota";
                 freq := Some (Num (-5)); mode := None; time := None;
                 myCall := None; theirCall := None |}
              ltac:(carries_by_computation) eq_refl) "-5" eq_refl))
              EmptyString "-" "5" EmptyString eq_refl eq_refl _ eq_refl eq_refl _).
    + right. right. reflexivity.
    + vm_compute. discriminate.
Defined.

(** C8. For every string the parser returns, and what it returns is a
    result or [null]; it throws nothing.  Whatever the [try] block throws
    ends in [null], like a URL of another scheme, a URL without a query
    string, parameters without a complete pair and a sig whose lookup is
    undefined. *)
Theorem parse_never_throws {host : Host} (url : string) :
  (parseDeepLinkURL url = Normal None \/
   exists p, parseDeepLinkURL url = Normal (Some p)) /\
  (forall e, parseDeepLinkURL_try url = Throw e -> parseDeepLinkURL url = Normal None) /\
  (startsWith url URL_SCHEME = false -> parseDeepLinkURL url = Normal None) /\
  (queryString_of (slice url (String.length URL_SCHEME)) = None \/
   queryString_of (slice url (String.length URL_SCHEME)) = Some EmptyString ->
   parseDeepLinkURL url = Normal None) /\
  (forall params, carries url params ->
     ~ complete (read_myRef params) (read_mySig params) ->
     ~ complete (read_theirRef params) (read_theirSig params) ->
     parseDeepLinkURL url = Normal None) /\
  (forall params s, carries url params ->
     read_mySig params = Some s \/ read_theirSig params = Some s ->
     get_property TYPE_TO_ACTIVATION s = None ->
     parseDeepLinkURL url = Normal None).
Proof.
  split; [|split; [|split; [|split; [|split]]]].
  - destruct (parse_returns url) as [[p|] H]; [right; now exists p | now left].
  - intros e He. unfold parseDeepLinkURL. rewrite He.
    now destruct (negb (startsWith url URL_SCHEME)).
  - intro Hs. unfold parseDeepLinkURL. now rewrite Hs.
  - intro Hq. unfold parseDeepLinkURL, parseDeepLinkURL_try.
    destruct (negb (startsWith url URL_SCHEME)); [reflexivity|].
    now destruct Hq as [-> | ->].
  - intros params Hc Hmy Htheir. rewrite (parse_carries _ _ Hc).
    now rewrite parseParams_no_pair.
  - intros params s Hc Hs Hg. exact (undefined_sig_rejected url params s Hc Hs Hg).
Qed.

Lemma parse_never_throws_witness :
  @parseDeepLinkURL stub_host url_summit_to_summit = Normal None.
Proof.
  apply (proj1 (proj2 (@parse_never_throws stub_host url_summit_to_summit))
           "URLSearchParams is not implemented").
  reflexivity.
Defined.

(** ** The query string *)

Lemma split_nonempty (sep : ascii) (s : string) : split sep s <> [].
Proof.
  destruct s as [|a t]; simpl; [discriminate|].
  destruct (Ascii.eqb a sep); [discriminate|].
  destruct (split sep t); discriminate.
Qed.

(** The code takes the piece between the first and the second [?]: what
    follows the first [?], cut at the next one. *)
Lemma queryString_of_truncates (s : string) :
  queryString_of s =
  option_map (fun q => hd EmptyString (split "?"%char q)) (after_first_question s).
Proof.
  unfold queryString_of.
  induction s as [|a t IH]; simpl; [reflexivity|].
  destruct (Ascii.eqb a "?"%char); simpl.
  - pose proof (split_nonempty "?"%char t) as Hne.
    destruct (split "?"%char t); [now elim Hne | reflexivity].
  - rewrite <- IH.
    pose proof (split_nonempty "?"%char t) as Hne.
    destruct (split "?"%char t); [now elim Hne | reflexivity].
Qed.

Lemma split_without_sep (q : string) :
  after_first_question q = None -> split "?"%char q = [q].
Proof.
  induction q as [|a t IH]; simpl; [reflexivity|].
  destruct (Ascii.eqb a "?"%char); [discriminate|].
  intro H. now rewrite (IH H).
Qed.

(** With a single [?] the query string is all that follows it. *)
Lemma queryString_of_single_question (s q : string) :
  after_first_question s = Some q -> after_first_question q = None ->
  queryString_of s = Some q.
Proof.
  intros Hs Hq. rewrite queryString_of_truncates, Hs. simpl.
  now rewrite (split_without_sep q Hq).
Qed.

(** A URL without [?] after the scheme has no query string. *)
Lemma queryString_of_no_question (s : string) :
  after_first_question s = None -> queryString_of s = None.
Proof.
  intro H. now rewrite queryString_of_truncates, H.
Qed.

(** C9, at a URL with a second [?].  All that follows the first [?] is
    [theirRef=A?B&theirSig=sota], which holds a complete, known pair; the
    code keeps [theirRef=A] only, and answers [null]. *)
Theorem query_cut_at_second_question :
  let urlPath := slice url_second_question (String.length URL_SCHEME) in
  after_first_question urlPath = Some "theirRef=A?B&theirSig=sota" /\
  queryString_of urlPath = Some "theirRef=A" /\
  parse url_second_question = Normal None /\
  @parseParams ascii_host (URLSearchParams_of "theirRef=A?B&theirSig=sota")
    = Some {| myRef := None; mySig := None;
              theirRef := Some "A?B"; theirSig := Some "sota";
              freq := None; mode := None; time := None;
              myCall := None; theirCall := None |}.
Proof. repeat split. Qed.




(** ** Further properties of the parser *)

Lemma or_undefined_not_empty (o : option string) :
  or_undefined o <> Some EmptyString.
Proof.
  destruct (or_undefined_cases o) as [-> | (s & -> & Hs)]; [discriminate|].
  intros [= ->]. now elim Hs.
Qed.

Lemma parseFrequency_not_NaN (o : option string) : parseFrequency o <> Some NaN.
Proof.
  unfold parseFrequency.
  destruct (negb (truthy truthy_str o)); [discriminate|].
  destruct o as [s|]; [|discriminate].
  destruct (parseInt s); simpl; discriminate.
Qed.

Lemma known_or_inherited (s : string) :
  get_property TYPE_TO_ACTIVATION s <> None ->
  In s ActivationCodes \/ In s Object_prototype.
Proof.
  intro H.
  destruct (in_dec string_dec s ActivationCodes) as [Hc|Hc]; [now left|].
  destruct (in_dec string_dec s Object_prototype) as [Hp|Hp]; [now right|].
  elim H. now apply get_property_undefined.
Qed.

Section ParserMore.
Context {host : Host}.

Lemma parseParams_text_fields (params : SearchParams) (p : ParsedLinkParams) :
  parseParams params = Some p ->
  mode p = or_undefined (option_map toUpperCase (params "mode")) /\
  myCall p = or_undefined (option_map toUpperCase (params "myCall")) /\
  theirCall p = or_undefined (option_map toUpperCase (params "theirCall")).
Proof.
  unfold parseParams.
  destruct (negb _ && negb _); [discriminate|].
  destruct (unknown_sig _); [discriminate|].
  destruct (unknown_sig _); [discriminate|].
  intros [= <-]. repeat split.
Qed.

Lemma accepted_sig_lookup (url : string) (p : ParsedLinkParams) (s : string) :
  parseDeepLinkURL url = Normal (Some p) ->
  mySig p = Some s \/ theirSig p = Some s ->
  truthy truthy_val (get_property TYPE_TO_ACTIVATION s) = true.
Proof.
  intros Hp Hs.
  apply parse_accepts_inv in Hp as (params & _ & Hp).
  apply parseParams_accepts_inv in Hp as (_ & Hu1 & Hu2 & _ & E1 & _ & E2 & _).
  rewrite <- E1 in Hu1. rewrite <- E2 in Hu2.
  assert (Hne : truthy_str s = true).
  { destruct s; [|reflexivity].
    destruct Hs as [Hs|Hs]; [rewrite E1 in Hs | rewrite E2 in Hs];
      now apply or_undefined_not_empty in Hs. }
  destruct Hs as [Hs|Hs]; [rewrite Hs in Hu1 | rewrite Hs in Hu2];
    simpl in *; rewrite Hne in *; simpl in *;
    now destruct (truthy truthy_val (get_property TYPE_TO_ACTIVATION s)).
Qed.

End ParserMore.

(** X1. Every result of the parser is well formed: none of its seven text
    fields holds the empty string, [freq] is never [NaN], and each sig it
    holds has a lookup in [TYPE_TO_ACTIVATION] that is defined, so it is one
    of the six codes or a property name of [Object.prototype]. *)
Theorem accepted_fields_well_formed {host : Host} (url : string)
    (p : ParsedLinkParams) :
  parseDeepLinkURL url = Normal (Some p) ->
  Forall (fun field => field <> Some EmptyString)
    [ myRef p; mySig p; theirRef p; theirSig p; mode p; myCall p; theirCall p ] /\
  freq p <> Some NaN /\
  (forall s, mySig p = Some s \/ theirSig p = Some s ->
     get_property TYPE_TO_ACTIVATION s <> None /\
     (In s ActivationCodes \/ In s Object_prototype)).
Proof.
  intro Hp. pose proof Hp as Hp0.
  apply parse_accepts_inv in Hp as (params & _ & Hp).
  pose proof (parseParams_text_fields params p Hp) as (Em & Emc & Etc).
  apply parseParams_accepts_inv in Hp as (_ & _ & _ & E1 & E2 & E3 & E4 & Ef & _).
  split; [|split].
  - rewrite E1, E2, E3, E4, Em, Emc, Etc.
    repeat constructor; apply or_undefined_not_empty.
  - rewrite Ef. apply parseFrequency_not_NaN.
  - intros s Hs.
    pose proof (accepted_sig_lookup url p s Hp0 Hs) as Hl.
    assert (Hd : get_property TYPE_TO_ACTIVATION s <> None).
    { intro E. rewrite E in Hl. discriminate Hl. }
    split; [exact Hd | now apply known_or_inherited].
Qed.

Lemma accepted_fields_well_formed_witness :
  freq summit_to_summit <> Some NaN.
Proof.
  exact (proj1 (proj2 (@accepted_fields_well_formed ascii_host url_summit_to_summit
                         summit_to_summit eq_refl))).
Defined.

Lemma no_upper_ascii_lower (s : string) : no_upper (map_string ascii_lower s) = true.
Proof.
  induction s as [|a t IH]; simpl; [reflexivity|].
  rewrite IH, andb_true_r.
  destruct a as [[] [] [] [] [] [] [] []]; reflexivity.
Qed.

(** X2. On a platform whose [toLowerCase] leaves no upper-case ASCII letter
    (as JavaScript's does), a sig of an accepted URL is one of the six
    codes, ["constructor"] or ["__proto__"]: of the inherited property
    names only these two are written without a capital. *)
Theorem accepted_sig_lowercase {host : Host} (url : string) (p : ParsedLinkParams)
    (s : string) :
  (forall x, no_upper (toLowerCase x) = true) ->
  parseDeepLinkURL url = Normal (Some p) ->
  mySig p = Some s \/ theirSig p = Some s ->
  In s ActivationCodes \/ s = "constructor" \/ s = "__proto__".
Proof.
  intros Hlow Hp Hs.
  assert (Hd : get_property TYPE_TO_ACTIVATION s <> None).
  { pose proof (accepted_sig_lookup url p s Hp Hs) as Hl.
    intro E. rewrite E in Hl. discriminate Hl. }
  destruct (known_or_inherited s Hd) as [Hc|Hi]; [now left|].
  assert (Hn : no_upper s = true).
  { apply parse_accepts_inv in Hp as (params & _ & Hp).
    apply parseParams_accepts_inv in Hp as (_ & _ & _ & _ & E1 & _ & E2 & _).
    assert (G : forall k, or_undefined (option_map toLowerCase (params k)) = Some s ->
                          no_upper s = true).
    { intros k. unfold or_undefined.
      destruct (truthy truthy_str _); [|discriminate].
      destruct (params k) as [raw|]; simpl; [|discriminate].
      intros [= <-]. apply Hlow. }
    destruct Hs as [Hs|Hs]; [rewrite E1 in Hs | rewrite E2 in Hs];
      [apply (G "mySig") | apply (G "theirSig")]; exact Hs. }
  right. simpl in Hi.
  destruct Hi as [<-|[<-|Hi]]; [now left | now right |].
  repeat (destruct Hi as [<-|Hi]; [vm_compute in Hn; discriminate Hn|]).
  destruct Hi.
Qed.

Lemma accepted_sig_lowercase_witness :
  In "pota" ActivationCodes \/ "pota" = "constructor" \/ "pota" = "__proto__".
Proof.
  apply (@accepted_sig_lowercase ascii_host url_summit_to_summit summit_to_summit "pota").
  - exact no_upper_ascii_lower.
  - reflexivity.
  - left. reflexivity.
Defined.

(** X3. Parameters with other names are ignored: two parameter sets that
    agree on the nine names the parser reads give the same result, so two
    URLs that carry them are answered alike. *)
Theorem unrecognized_keys_ignored {host : Host} (url url' : string)
    (a b : SearchParams) :
  (forall k, In k recognized_keys -> a k = b k) ->
  parseParams a = parseParams b /\
  (carries url a -> carries url' b -> parseDeepLinkURL url = parseDeepLinkURL url').
Proof.
  intro H.
  assert (E : parseParams a = parseParams b).
  { unfold parseParams, read_myRef, read_mySig, read_theirRef, read_theirSig.
    rewrite (H "myRef"), (H "mySig"), (H "theirRef"), (H "theirSig"),
            (H "freq"), (H "mode"), (H "time"), (H "myCall"), (H "theirCall");
      try reflexivity; simpl; tauto. }
  split; [exact E|].
  intros Hc Hc'. now rewrite (parse_carries _ _ Hc), (parse_carries _ _ Hc'), E.
Qed.

Lemma unrecognized_keys_ignored_witness :
  @parseParams ascii_host (URLSearchParams_of "myRef=W6/CT-006&utm=x") =
  @parseParams ascii_host (URLSearchParams_of "myRef=W6/CT-006").
Proof.
  refine (proj1 (@unrecognized_keys_ignored ascii_host EmptyString EmptyString _ _ _)).
  intros k Hk. simpl in Hk.
  repeat (destruct Hk as [<-|Hk]; [reflexivity|]). destruct Hk.
Defined.

Lemma split_at_sep (sep : ascii) (h t : string) :
  split sep h = [h] ->
  split sep (h ++ String sep t) = h :: split sep t.
Proof.
  induction h as [|a h IH]; simpl.
  - intros _. now rewrite Ascii.eqb_refl.
  - destruct (Ascii.eqb a sep); [discriminate|].
    destruct (split sep h) as [|x l] eqn:E; [intros _|].
    + now elim (split_nonempty sep h).
    + intros [= -> ->]. now rewrite IH.
Qed.

(** X4. The query string that the parser decodes is the text between the
    first and the second [?] of the URL path: there is none without a [?],
    it is all that follows a single [?], and from a second [?] on the text
    is left out. *)
Theorem query_string_extent (urlPath : string) :
  (after_first_question urlPath = None -> queryString_of urlPath = None) /\
  (forall q, after_first_question urlPath = Some q ->
     (after_first_question q = None -> queryString_of urlPath = Some q) /\
     (forall h t, q = h ++ String "?"%char t -> after_first_question h = None ->
        queryString_of urlPath = Some h)).
Proof.
  split; [apply queryString_of_no_question|].
  intros q Hq. split; [now apply queryString_of_single_question|].
  intros h t -> Hh.
  rewrite queryString_of_truncates, Hq. simpl.
  now rewrite (split_at_sep "?"%char h t (split_without_sep h Hh)).
Qed.

Lemma query_string_extent_witness :
  queryString_of "qso?theirRef=A?B&theirSig=sota" = Some "theirRef=A".
Proof.
  apply (proj2 (proj2 (query_string_extent "qso?theirRef=A?B&theirSig=sota")
                  "theirRef=A?B&theirSig=sota" eq_refl)
           "theirRef=A" "B&theirSig=sota"); reflexivity.
Defined.

(** ** Further properties of the builder *)

(** The record, field by field. *)
Lemma build_fields {lib : OperationData} (now : Z) (p : ParsedLinkParams) :
  buildSuggestedQSO now p =
  {| QSO._suggestedKey := "deeplink-" ++ decimal_of now;
     QSO.their := {| call := if truthy truthy_str (theirCall p)
                             then theirCall p else None |};
     QSO.our := {| call := if truthy truthy_str (myCall p) then myCall p else None |};
     QSO.freq := if truthy truthy_num (freq p) then freq p else None;
     QSO.band := match freq p with
                 | Some f => if truthy_num f then bandForFrequency f else None
                 | None => None
                 end;
     QSO.mode := if truthy truthy_str (mode p) then mode p
                 else match freq p with
                      | Some f => if truthy_num f then modeForFrequency f else None
                      | None => None
                      end;
     QSO.startAtMillis := if truthy truthy_num (time p) then time p else None;
     QSO.refs := match theirRef p, theirSig p with
                 | Some r, Some s =>
                     if truthy_str r && truthy_str s
                     then Some [ {| type := get_property TYPE_TO_HUNTING s; ref := r |} ]
                     else None
                 | _, _ => None
                 end |}.
Proof.
  unfold buildSuggestedQSO, apply_freq, apply_refs.
  destruct (truthy truthy_str (theirCall p)), (truthy truthy_str (myCall p));
    destruct (freq p) as [f|]; simpl; try destruct (truthy_num f);
    destruct (truthy truthy_str (mode p)), (truthy truthy_num (time p));
    destruct (theirRef p) as [r|], (theirSig p) as [s|]; simpl;
    try destruct (truthy_str r && truthy_str s); reflexivity.
Qed.

(** X5. The builder does not look at [myRef] and [mySig]: with any other
    values for them the record is the same. *)
Theorem build_ignores_my_pair {lib : OperationData} (now : Z) (p : ParsedLinkParams)
    (r s : option string) :
  buildSuggestedQSO now (with_my_pair p r s) = buildSuggestedQSO now p.
Proof.
  now rewrite !build_fields.
Qed.

(** X6. In every record of the builder, [freq] and [startAtMillis] are
    absent or a number other than 0, never [NaN]; there is a [band] only
    beside a [freq]; without a [freq] the mode is the input mode or
    absent; a [call] is never the empty string; and [refs], when set, has
    one element. *)
Theorem built_record_invariants {lib : OperationData} (now : Z) (p : ParsedLinkParams) :
  let qso := buildSuggestedQSO now p in
  absent_or_nonzero (QSO.freq qso) /\
  absent_or_nonzero (QSO.startAtMillis qso) /\
  (QSO.freq qso = None -> QSO.band qso = None) /\
  (QSO.freq qso = None -> QSO.mode qso = None \/ QSO.mode qso = mode p) /\
  call (QSO.their qso) <> Some EmptyString /\
  call (QSO.our qso) <> Some EmptyString /\
  (forall l, QSO.refs qso = Some l -> length l = 1%nat).
Proof.
  intro qso. subst qso. rewrite build_fields. cbn [QSO.freq QSO.band QSO.mode
    QSO.startAtMillis QSO.their QSO.our QSO.refs call].
  assert (Hnum : forall o, absent_or_nonzero (if truthy truthy_num o then o else None)).
  { intros [[|z]|]; simpl; try (now left).
    destruct (z =? 0) eqn:E; simpl; [now left|].
    right. exists z. split; [reflexivity | now apply Z.eqb_neq]. }
  assert (Hstr : forall o, (if truthy truthy_str o then o else None) <> Some EmptyString).
  { intros [[|a t]|]; simpl; discriminate. }
  repeat split; try apply Hnum; try apply Hstr.
  - destruct (freq p) as [f|]; simpl; [|reflexivity].
    destruct (truthy_num f); [discriminate | reflexivity].
  - destruct (freq p) as [f|]; simpl.
    + destruct (truthy_num f); [discriminate|].
      intros _. destruct (truthy truthy_str (mode p)); [now right | now left].
    + intros _. destruct (truthy truthy_str (mode p)); [now right | now left].
  - intros l. destruct (theirRef p) as [r|], (theirSig p) as [s|]; try discriminate.
    destruct (truthy_str r && truthy_str s); [|discriminate].
    now intros [= <-].
Qed.

(** *** The key *)

Lemma decimal_value_from_acc (d : Decimal.uint) :
  forall acc : positive,
    decimal_value_from (Z.pos acc) (NilEmpty.string_of_uint d)
    = Z.pos (Pos.of_uint_acc d acc).
Proof.
  induction d; intro acc; cbn [NilEmpty.string_of_uint decimal_value_from Pos.of_uint_acc];
    [reflexivity | ..];
    rewrite <- IHd; f_equal;
    rewrite ?Pos2Z.inj_add, ?Pos2Z.inj_mul;
    match goal with
    | |- context [code ?c - 48] =>
        let v := eval vm_compute in (code c - 48) in change (code c - 48) with v
    end;
    lia.
Qed.

Lemma decimal_value_of_uint (d : Decimal.uint) :
  decimal_value (NilEmpty.string_of_uint d) = Z.of_uint d.
Proof.
  unfold decimal_value, Z.of_uint.
  induction d; cbn [NilEmpty.string_of_uint decimal_value_from Pos.of_uint Z.of_N];
    [reflexivity | exact IHd | ..];
    match goal with
    | |- decimal_value_from ?a _ = _ =>
        let v := eval vm_compute in a in change a with v
    end;
    apply decimal_value_from_acc.
Qed.

Lemma all_digits_of_uint (d : Decimal.uint) :
  all_digits (NilEmpty.string_of_uint d) = true.
Proof. induction d; simpl; auto. Qed.

Lemma digit_string_of_uint (d : Decimal.uint) :
  is_digit_string (NilZero.string_of_uint d) = true /\
  decimal_value (NilZero.string_of_uint d) = Z.of_uint d.
Proof.
  destruct d; try (split; reflexivity);
    (split; [apply (all_digits_of_uint (_ d)) | apply (decimal_value_of_uint (_ d))]).
Qed.

(** Reading back a printed integer. *)
Lemma parseInt_decimal_of (z : Z) : parseInt (decimal_of z) = Num z.
Proof.
  unfold decimal_of.
  rewrite <- (DecimalZ.of_to z) at 2.
  destruct (Z.to_int z) as [d|d]; cbn [NilZero.string_of_int Z.of_int];
    destruct (digit_string_of_uint d) as [Hd Hv].
  - destruct (parseInt_digit_string _ Hd) as [-> _]. now rewrite Hv.
  - pose proof (parseInt_leading_integer EmptyString "-" (NilZero.string_of_uint d)
                  EmptyString eq_refl (or_intror (or_intror eq_refl)) Hd eq_refl) as E.
    cbn [append] in E. rewrite append_empty_r in E. rewrite E, Hv.
    change (sign_of "-") with (-1). f_equal; lia.
Qed.

Lemma split_digits (sep : ascii) (s : string) :
  is_digit sep = false -> all_digits s = true -> split sep s = [s].
Proof.
  intro Hsep. induction s as [|a t IH]; simpl; [reflexivity|].
  intro H. apply andb_true_iff in H as [Ha Ht].
  destruct (Ascii.eqb_spec a sep) as [->|_]; [congruence|].
  now rewrite (IH Ht).
Qed.

(** X7. Whatever the parameters, the key of the record is ["deeplink-"]
    followed by the decimal digits of the clock, and reading those digits
    with [parseInt] gives the clock back; two records have the same key
    only when they were built at the same instant.  From 1970 on the key
    splits at [-] into ["deeplink"] and a string of digits, as the test of
    the key reads it. *)
Theorem suggested_key_round_trip {lib : OperationData} (now : Z) (p : ParsedLinkParams) :
  let key := QSO._suggestedKey (buildSuggestedQSO now p) in
  key = "deeplink-" ++ decimal_of now /\
  parseInt (decimal_of now) = Num now /\
  (forall now' p', QSO._suggestedKey (buildSuggestedQSO now' p') = key -> now' = now) /\
  (0 <= now ->
   split "-"%char key = ["deeplink"; decimal_of now] /\
   is_digit_string (decimal_of now) = true).
Proof.
  intro key. subst key. rewrite build_fields. cbn [QSO._suggestedKey].
  split; [reflexivity|]. split; [apply parseInt_decimal_of|]. split.
  - intros now' p'. rewrite build_fields. cbn [QSO._suggestedKey].
    intro E. injection E as E.
    pose proof (parseInt_decimal_of now') as H'. rewrite E, parseInt_decimal_of in H'.
    now injection H'.
  - intro Hpos.
    assert (Hd : is_digit_string (decimal_of now) = true).
    { unfold decimal_of. destruct now as [|q|q]; try lia.
      - reflexivity.
      - apply digit_string_of_uint. }
    split; [|exact Hd].
    apply andb_true_iff in Hd as [_ Hd].
    cbn [append split Ascii.eqb Bool.eqb].
    now rewrite (split_digits "-"%char _ eq_refl Hd).
Qed.

Lemma suggested_key_round_trip_witness :
  split "-"%char (QSO._suggestedKey (@buildSuggestedQSO test_lib 1704067200000
                                        hunt_pota_cw_portion))
  = ["deeplink"; "1704067200000"].
Proof.
  refine (proj1 (proj2 (proj2 (proj2
            (@suggested_key_round_trip test_lib 1704067200000 hunt_pota_cw_portion))) _)).
  discriminate.
Defined.

(** X8. From the parser to the builder: for every accepted URL the record
    either has no [refs], and then the result holds no complete
    [theirRef]/[theirSig] pair (a lone member is dropped), or its [refs]
    is the one pair of [theirRef] with a type that is defined: the code
    itself for the six codes. *)
Theorem suggestion_refs_defined {host : Host} {lib : OperationData}
    (url : string) (now : Z) (p : ParsedLinkParams) :
  parseDeepLinkURL url = Normal (Some p) ->
  (QSO.refs (buildSuggestedQSO now p) = None /\
   ~ complete (theirRef p) (theirSig p)) \/
  (exists r s v,
     theirRef p = Some r /\ theirSig p = Some s /\
     QSO.refs (buildSuggestedQSO now p) = Some [ {| type := Some v; ref := r |} ] /\
     truthy_val v = true /\
     (In s ActivationCodes -> v = JStr s)).
Proof.
  intro Hp. rewrite build_fields. cbn [QSO.refs].
  destruct (theirRef p) as [r|] eqn:Er, (theirSig p) as [s|] eqn:Es;
    try (left; split; [reflexivity | intros [(x & Hx & _) (y & Hy & _)]; discriminate]).
  destruct (truthy_str r && truthy_str s) eqn:Et.
  - right.
    pose proof (accepted_sig_lookup url p s Hp (or_intror Es)) as Hl.
    assert (Hh : exists v, get_property TYPE_TO_HUNTING s = Some v /\ truthy_val v = true
                           /\ (In s ActivationCodes -> v = JStr s)).
    { destruct (in_dec string_dec s ActivationCodes) as [Hc|Hc].
      - destruct (hunting_tag_of_code s Hc) as [E _].
        exists (JStr s). split; [exact E|]. split; [|reflexivity].
        simpl. simpl in Hc.
        repeat (destruct Hc as [<-|Hc]; [reflexivity|]). destruct Hc.
      - assert (Hown : own_property TYPE_TO_ACTIVATION s = None /\
                       own_property TYPE_TO_HUNTING s = None).
        { unfold TYPE_TO_ACTIVATION, TYPE_TO_HUNTING, ActivationCodes in *.
          cbn [own_property In] in *.
          repeat match goal with
                 | |- context [String.eqb ?a s] =>
                     destruct (String.eqb_spec a s); [elim Hc; tauto|]
                 end.
          now split. }
        destruct Hown as [Ha Hu]. unfold get_property in *. rewrite Ha in Hl. rewrite Hu.
        destruct (existsb (String.eqb s) Object_prototype); [|discriminate Hl].
        exists (JInherited s). repeat split. intro Hin. now elim Hc. }
    destruct Hh as (v & Ev & Hv & Hcode).
    exists r, s, v. rewrite Ev. repeat split; assumption.
  - left. split; [reflexivity|].
    intros [(x & [= <-] & Hx) (y & [= <-] & Hy)].
    apply truthy_str_true in Hx, Hy. rewrite Hx, Hy in Et. discriminate Et.
Qed.

Lemma suggestion_refs_defined_witness :
  (QSO.refs (@buildSuggestedQSO test_lib 0 summit_to_summit) = None /\
   ~ complete (theirRef summit_to_summit) (theirSig summit_to_summit)) \/
  (exists r s v,
     theirRef summit_to_summit = Some r /\ theirSig summit_to_summit = Some s /\
     QSO.refs (@buildSuggestedQSO test_lib 0 summit_to_summit)
       = Some [ {| type := Some v; ref := r |} ] /\
     truthy_val v = true /\
     (In s ActivationCodes -> v = JStr s)).
Proof.
  apply (@suggestion_refs_defined ascii_host test_lib url_summit_to_summit 0
           summit_to_summit).
  reflexivity.
Defined.

(** ** The handler *)

Section HandlerFacts.
Context {host : Host} {lib : OperationData} {store : Store} {tools : RefTools}.

Lemma find_first_match {A} (f : A -> bool) (earlier later : list A) (x : A) :
  (forall y, In y earlier -> f y = false) -> f x = true ->
  find f (earlier ++ x :: later)%list = Some x.
Proof.
  intros Hb Hx. induction earlier as [|b l IH]; simpl.
  - now rewrite Hx.
  - rewrite (Hb b (or_introl eq_refl)). apply IH.
    intros y Hy. apply Hb. now right.
Qed.

Lemma find_no_match {A} (f : A -> bool) (l : list A) :
  (forall y, In y l -> f y = false) -> find f l = None.
Proof.
  intro H. induction l as [|a l IH]; simpl; [reflexivity|].
  rewrite (H a (or_introl eq_refl)). apply IH.
  intros y Hy. apply H. now right.
Qed.

Lemma matches_ref_true (t : option jsval) (r : string) (o : option Operation) :
  matches_ref t r o = true <->
  exists op opRef, o = Some op /\ deleted op = false /\
                   findRef op t = Some opRef /\ ref opRef = r.
Proof.
  unfold matches_ref. split.
  - destruct o as [op|]; [|discriminate].
    destruct (deleted op) eqn:Ed; [discriminate|].
    destruct (findRef op t) as [x|] eqn:Ef; [|discriminate].
    intro H. apply String.eqb_eq in H. now exists op, x.
  - intros (op & x & -> & -> & -> & <-). apply String.eqb_refl.
Qed.

(** The events of [findOrCreateOperation]: no navigation, one
    [addNewOperation] at most, and none at all only with an operation. *)
Lemma findOrCreateOperation_events (myRef mySig : option string)
    (operations : option (list (option Operation))) :
  let '(events, result) := findOrCreateOperation myRef mySig operations in
  filter is_navigate events = [] /\
  (length (filter is_addNewOperation events) <= 1)%nat /\
  (events = [] -> exists op, result = Normal op).
Proof.
  unfold findOrCreateOperation.
  destruct myRef as [r|], mySig as [s|];
    try (repeat split; simpl; try lia; discriminate).
  destruct (negb (truthy_str r) || negb (truthy_str s));
    [repeat split; simpl; try lia; discriminate|].
  destruct (find _ _) as [[op|]|].
  - repeat split; simpl; try lia. intros _. now exists op.
  - destruct (addNewOperation _); repeat split; simpl; try lia; discriminate.
  - destruct (addNewOperation _); repeat split; simpl; try lia; discriminate.
Qed.

(** A URL of the scheme is remembered, whatever becomes of it. *)
Lemma handleDeepLink_remembers (now : Z) (operations : option (list (option Operation)))
    (processedUrl : option string) (u : string) :
  truthy_str u = true -> startsWith u URL_SCHEME = true ->
  fst (handleDeepLink now operations processedUrl (Some u)) = Some u.
Proof.
  intros Eu Es. unfold handleDeepLink. rewrite Eu, Es. cbn [negb orb].
  destruct processedUrl as [last|];
    [destruct (String.eqb_spec last u) as [->|Hne]; [reflexivity|]|];
    destruct (parseDeepLinkURL u) as [[p|]|]; try reflexivity;
    destruct (findOrCreateOperation _ _ _) as [ev [op|e]]; reflexivity.
Qed.

End HandlerFacts.

(** X9. Without a complete [myRef]/[mySig] pair, [findOrCreateOperation]
    does not look at the operations: it dispatches one [addNewOperation]
    with [_useTemplates] and no reference, and its result is the store's
    answer.  A lone [myRef] or [mySig] is dropped in this way. *)
Theorem chase_only_creates_generic {store : Store} {tools : RefTools}
    (myRef mySig : option string) (operations : option (list (option Operation))) :
  ~ complete myRef mySig ->
  let generic := {| _useTemplates := true; new_refs := None; _isNew := false |} in
  findOrCreateOperation myRef mySig operations =
    ([Dispatch_addNewOperation generic], addNewOperation generic).
Proof.
  intros H generic. unfold findOrCreateOperation.
  destruct myRef as [r|], mySig as [s|]; try reflexivity.
  destruct (truthy_str r) eqn:Er, (truthy_str s) eqn:Es; try reflexivity.
  elim H. split; [exists r | exists s]; split; try reflexivity;
    now apply truthy_str_true.
Qed.

Lemma chase_only_creates_generic_witness :
  fst (@findOrCreateOperation fresh_store first_ref_of_type
         (Some "K-1234") None (Some [Some op_K1234]))
  = [Dispatch_addNewOperation
       {| _useTemplates := true; new_refs := None; _isNew := false |}].
Proof.
  rewrite (@chase_only_creates_generic fresh_store first_ref_of_type
             (Some "K-1234") None (Some [Some op_K1234])).
  - reflexivity.
  - intros [_ (s & H & _)]. discriminate H.
Defined.

(** X10. With a complete pair, the first operation of the store that is
    not deleted and for which [findRef], at the activation type of
    [mySig], gives a reference equal to [myRef] is returned, and nothing is
    dispatched.  Conversely, a result without any dispatch is such an
    operation of the store: never a deleted one. *)
Theorem existing_operation_reused {store : Store} {tools : RefTools}
    (r s : string) (operations : option (list (option Operation))) :
  r <> EmptyString -> s <> EmptyString ->
  let activationType := get_property TYPE_TO_ACTIVATION s in
  (forall earlier op later opRef,
     values_or_empty operations = (earlier ++ Some op :: later)%list ->
     (forall o, In o earlier -> matches_ref activationType r o = false) ->
     deleted op = false -> findRef op activationType = Some opRef -> ref opRef = r ->
     findOrCreateOperation (Some r) (Some s) operations = ([], Normal op)) /\
  (forall result,
     findOrCreateOperation (Some r) (Some s) operations = ([], result) ->
     exists op opRef,
       result = Normal op /\ In (Some op) (values_or_empty operations) /\
       deleted op = false /\ findRef op activationType = Some opRef /\
       ref opRef = r).
Proof.
  intros Hr Hs activationType.
  apply truthy_str_true in Hr, Hs.
  unfold findOrCreateOperation. rewrite Hr, Hs. cbn [negb orb].
  fold activationType. split.
  - intros earlier op later opRef Hv Hb Hd Hf Hx.
    rewrite Hv, (find_first_match _ earlier later (Some op) Hb); [reflexivity|].
    apply matches_ref_true. now exists op, opRef.
  - intro result.
    destruct (find (matches_ref activationType r) (values_or_empty operations))
      as [[op|]|] eqn:E.
    + intros [= <-]. apply find_some in E as [Hin Hm].
      apply matches_ref_true in Hm as (op' & x & [= <-] & Hd & Hf & Hx).
      now exists op, x.
    + destruct (addNewOperation _); discriminate.
    + destruct (addNewOperation _); discriminate.
Qed.

Lemma existing_operation_reused_witness :
  @findOrCreateOperation fresh_store first_ref_of_type (Some "K-1234") (Some "pota")
    (Some [Some op_K1234_deleted; None; Some op_K1234])
  = ([], Normal op_K1234).
Proof.
  refine (proj1 (@existing_operation_reused fresh_store first_ref_of_type
                   "K-1234" "pota" (Some [Some op_K1234_deleted; None; Some op_K1234])
                   _ _)
            [Some op_K1234_deleted; None] op_K1234 []
            {| type := Some (JStr "potaActivation"); ref := "K-1234" |}
            eq_refl _ eq_refl eq_refl eq_refl).
  - discriminate.
  - discriminate.
  - intros o [<-|[<-|[]]]; reflexivity.
Defined.

(** X11. With a complete pair and no operation to reuse (each one is
    [null], deleted, or without the reference), an operation is created
    with the one reference [{type: TYPE_TO_ACTIVATION[mySig], ref: myRef}]
    and [_isNew]; when the store answers with an operation,
    [setOperationData] is dispatched next with its [uuid] and [refs], and
    that operation is the result unless the second action is rejected. *)
Theorem missing_operation_created {store : Store} {tools : RefTools}
    (r s : string) (operations : option (list (option Operation))) :
  r <> EmptyString -> s <> EmptyString ->
  (forall op, In (Some op) (values_or_empty operations) ->
     deleted op = true \/
     forall opRef, findRef op (get_property TYPE_TO_ACTIVATION s) = Some opRef ->
                   ref opRef <> r) ->
  let data := {| _useTemplates := false;
                 new_refs := Some [ {| type := get_property TYPE_TO_ACTIVATION s;
                                       ref := r |} ];
                 _isNew := true |} in
  (forall e, addNewOperation data = Throw e ->
     findOrCreateOperation (Some r) (Some s) operations =
       ([Dispatch_addNewOperation data], Throw e)) /\
  (forall newOperation, addNewOperation data = Normal newOperation ->
     fst (findOrCreateOperation (Some r) (Some s) operations) =
       [Dispatch_addNewOperation data;
        Dispatch_setOperationData (uuid newOperation) (op_refs newOperation)] /\
     (forall u, setOperationData (uuid newOperation) (op_refs newOperation) = Normal u ->
        snd (findOrCreateOperation (Some r) (Some s) operations) = Normal newOperation) /\
     (forall e, setOperationData (uuid newOperation) (op_refs newOperation) = Throw e ->
        snd (findOrCreateOperation (Some r) (Some s) operations) = Throw e)).
Proof.
  intros Hr Hs Hnone data.
  apply truthy_str_true in Hr, Hs.
  unfold findOrCreateOperation. rewrite Hr, Hs. cbn [negb orb].
  rewrite find_no_match.
  - fold data. split.
    + intros e ->. reflexivity.
    + intros newOperation ->. cbn [fst snd]. split; [reflexivity|].
      split; [intros u -> | intros e ->]; reflexivity.
  - intros [op|] Hin; [|reflexivity].
    destruct (matches_ref (get_property TYPE_TO_ACTIVATION s) r (Some op)) eqn:E;
      [|reflexivity].
    apply matches_ref_true in E as (op' & x & [= <-] & Hd & Hf & Hx).
    destruct (Hnone op Hin) as [Hdel|Hno]; [congruence|].
    now elim (Hno x Hf).
Qed.

Lemma missing_operation_created_witness :
  fst (@findOrCreateOperation fresh_store first_ref_of_type (Some "K-1234") (Some "pota")
         (Some [Some op_K1234_deleted; None]))
  = [Dispatch_addNewOperation
       {| _useTemplates := false;
          new_refs := Some [ {| type := Some (JStr "potaActivation"); ref := "K-1234" |} ];
          _isNew := true |};
     Dispatch_setOperationData "fresh"
       [ {| type := Some (JStr "potaActivation"); ref := "K-1234" |} ]].
Proof.
  refine (proj1 (proj2 (@missing_operation_created fresh_store first_ref_of_type
                   "K-1234" "pota" (Some [Some op_K1234_deleted; None]) _ _ _)
            {| uuid := "fresh"; deleted := false;
               op_refs := [ {| type := Some (JStr "potaActivation"); ref := "K-1234" |} ] |}
            eq_refl)).
  - discriminate.
  - discriminate.
  - intros op [[= <-]|[H|[]]]; [now left | discriminate H].
Defined.

(** X12. The handler remembers the last URL of the scheme it was given,
    accepted or not, and a second delivery of the same URL right after
    does nothing: no event, and the memory unchanged, whatever the clock
    and the operations then are. *)
Theorem repeated_url_ignored {host : Host} {lib : OperationData} {store : Store}
    {tools : RefTools} (now now' : Z)
    (operations operations' : option (list (option Operation)))
    (processedUrl url : option string) :
  let remembered := fst (handleDeepLink now operations processedUrl url) in
  handleDeepLink now' operations' remembered url = (remembered, []) /\
  (forall u, url = Some u -> startsWith u URL_SCHEME = true -> remembered = Some u).
Proof.
  intro remembered. subst remembered.
  destruct url as [u|]; [|split; [reflexivity | discriminate]].
  destruct (truthy_str u && startsWith u URL_SCHEME) eqn:E.
  - apply andb_true_iff in E as [Eu Es].
    rewrite (handleDeepLink_remembers now operations processedUrl u Eu Es).
    split; [|now intros ? [= <-]].
    unfold handleDeepLink. rewrite Eu, Es. cbn [negb orb].
    now rewrite String.eqb_refl.
  - assert (H : forall n ops, handleDeepLink n ops processedUrl (Some u)
                              = (processedUrl, [])).
    { intros n ops. unfold handleDeepLink.
      apply andb_false_iff in E as [-> | ->]; [reflexivity|].
      now rewrite orb_true_r. }
    rewrite H. cbn [fst]. split; [apply H|].
    intros ? [= <-] Hs. rewrite Hs, andb_true_r in E.
    destruct u; [discriminate Hs | discriminate E].
Qed.

Lemma repeated_url_ignored_witness :
  fst (@handleDeepLink ascii_host test_lib fresh_store first_ref_of_type 0 None None
         (Some url_lone_myRef))
  = Some url_lone_myRef.
Proof.
  apply (proj2 (@repeated_url_ignored ascii_host test_lib fresh_store first_ref_of_type
                  0 0 None None None (Some url_lone_myRef)) url_lone_myRef);
    reflexivity.
Defined.

Lemma built_record_invariants_witness :
  QSO.band (@buildSuggestedQSO test_lib 0 summit_to_summit) = None.
Proof.
  apply (proj1 (proj2 (proj2 (@built_record_invariants test_lib 0 summit_to_summit)))).
  reflexivity.
Defined.

(** X13. The events of one delivery.  There are events only for a URL that
    the parser accepts and that is not the remembered one.  At most one
    operation is created and at most one navigation asked for; the
    navigation comes last, after [findOrCreateOperation] has given an
    operation, and carries that operation, its [uuid], and the record that
    [buildSuggestedQSO] makes of the parsed parameters. *)
Theorem handler_events {host : Host} {lib : OperationData} {store : Store}
    {tools : RefTools} (now : Z) (operations : option (list (option Operation)))
    (processedUrl url : option string) :
  let events := snd (handleDeepLink now operations processedUrl url) in
  (events <> [] ->
     exists u p, url = Some u /\ processedUrl <> Some u /\
                 parseDeepLinkURL u = Normal (Some p)) /\
  (length (filter is_navigate events) <= 1)%nat /\
  (length (filter is_addNewOperation events) <= 1)%nat /\
  (forall e, In e events -> is_navigate e = true ->
     exists u p op earlier,
       url = Some u /\ parseDeepLinkURL u = Normal (Some p) /\
       findOrCreateOperation (myRef p) (mySig p) operations = (earlier, Normal op) /\
       e = Navigate_Operation (uuid op) op (buildSuggestedQSO now p) /\
       events = (earlier ++ [e])%list).
Proof.
  intro events. subst events. unfold handleDeepLink.
  assert (Hnil : (([] : list event) <> [] ->
            exists u p, url = Some u /\ processedUrl <> Some u /\
                        parseDeepLinkURL u = Normal (Some p)) /\
          (length (filter is_navigate ([] : list event)) <= 1)%nat /\
          (length (filter is_addNewOperation ([] : list event)) <= 1)%nat /\
          (forall e, In e ([] : list event) -> is_navigate e = true ->
             exists u p op earlier,
               url = Some u /\ parseDeepLinkURL u = Normal (Some p) /\
               findOrCreateOperation (myRef p) (mySig p) operations
                 = (earlier, Normal op) /\
               e = Navigate_Operation (uuid op) op (buildSuggestedQSO now p) /\
               ([] : list event) = (earlier ++ [e])%list)).
  { split; [intro H; now elim H|]. simpl. split; [lia|]. split; [lia|]. intros e []. }
  destruct url as [u|]; [|exact Hnil].
  destruct (negb (truthy_str u) || negb (startsWith u URL_SCHEME)); [exact Hnil|].
  assert (Hnew : (match processedUrl with
                  | Some last => String.eqb last u
                  | None => false
                  end) = false -> processedUrl <> Some u).
  { destruct processedUrl as [last|]; [|discriminate].
    intros H [= ->]. now rewrite String.eqb_refl in H. }
  destruct (match processedUrl with Some last => String.eqb last u | None => false end);
    [exact Hnil|].
  specialize (Hnew eq_refl).
  destruct (parseDeepLinkURL u) as [[p|]|e0] eqn:Ep; try exact Hnil.
  pose proof (findOrCreateOperation_events (myRef p) (mySig p) operations) as Hev.
  destruct (findOrCreateOperation (myRef p) (mySig p) operations) as [tr [op|e1]] eqn:Ef;
    destruct Hev as (Hnav & Hadd & _); cbn [snd].
  - rewrite !filter_app, Hnav. cbn [filter is_navigate is_addNewOperation app length].
    rewrite app_nil_r.
    split; [intros _; now exists u, p|]. split; [lia|]. split; [exact Hadd|].
    intros e Hin He. apply in_app_or in Hin as [Hin|[<-|[]]].
    + assert (In e (filter is_navigate tr)) by now apply filter_In.
      rewrite Hnav in H. destruct H.
    + now exists u, p, op, tr.
  - rewrite Hnav.
    split; [intros _; now exists u, p|]. split; [simpl; lia|]. split; [exact Hadd|].
    intros e Hin He.
    assert (In e (filter is_navigate tr)) by now apply filter_In.
    rewrite Hnav in H. destruct H.
Qed.

Lemma handler_events_witness :
  exists u p, Some url_summit_to_summit = Some u /\ None <> Some u /\
              @parseDeepLinkURL ascii_host u = Normal (Some p).
Proof.
  apply (proj1 (@handler_events ascii_host test_lib fresh_store first_ref_of_type
                  0 None None (Some url_summit_to_summit))).
  discriminate.
Defined.

(** X14. The two tables at work in one delivery.  For a URL, not the
    remembered one, that is accepted with both pairs complete and both
    sigs among the six codes, when the store has no operation to reuse
    (each one is [null], deleted, or without the reference) and accepts
    both actions: the operation is created with [myRef] under the
    activation tag of [mySig] ([mySig] followed by ["Activation"]), and the
    record navigated to has [theirRef] under the hunting tag of
    [theirSig], the code itself. *)
Theorem activation_tag_and_hunting_tag {host : Host} {lib : OperationData}
    {store : Store} {tools : RefTools} (now : Z)
    (operations : option (list (option Operation))) (processedUrl : option string)
    (u : string) (p : ParsedLinkParams) (r s r' s' : string)
    (newOperation : Operation) :
  processedUrl <> Some u ->
  parseDeepLinkURL u = Normal (Some p) ->
  myRef p = Some r -> mySig p = Some s -> In s ActivationCodes ->
  theirRef p = Some r' -> theirSig p = Some s' -> In s' ActivationCodes ->
  (forall op, In (Some op) (values_or_empty operations) ->
     deleted op = true \/
     forall opRef, findRef op (get_property TYPE_TO_ACTIVATION s) = Some opRef ->
                   ref opRef <> r) ->
  let data := {| _useTemplates := false;
                 new_refs := Some [ {| type := Some (JStr (s ++ "Activation"));
                                       ref := r |} ];
                 _isNew := true |} in
  addNewOperation data = Normal newOperation ->
  setOperationData (uuid newOperation) (op_refs newOperation) = Normal tt ->
  handleDeepLink now operations processedUrl (Some u) =
    (Some u,
     [ Dispatch_addNewOperation data;
       Dispatch_setOperationData (uuid newOperation) (op_refs newOperation);
       Navigate_Operation (uuid newOperation) newOperation (buildSuggestedQSO now p) ]) /\
  QSO.refs (buildSuggestedQSO now p) = Some [ {| type := Some (JStr s'); ref := r' |} ].
Proof.
  intros Hnew Hp Er Es Hs Er' Es' Hs' Hdel data Hadd Hset.
  assert (Hscheme : truthy_str u = true /\ startsWith u URL_SCHEME = true).
  { pose proof Hp as Hp'. apply parse_accepts_inv in Hp' as (params & (Hsch & q & Hq & _) & _).
    split; [|exact Hsch]. destruct u; [discriminate Hsch | reflexivity]. }
  destruct Hscheme as [Hu Hsch].
  pose proof Hp as Hp'. apply parse_accepts_inv in Hp' as (params & _ & Hpp).
  apply parseParams_accepts_inv in Hpp as (_ & _ & _ & E1 & E2 & E3 & E4 & _).
  assert (Hne : forall o x, or_undefined o = Some x -> truthy_str x = true).
  { intros o x H. destruct x; [now apply or_undefined_not_empty in H | reflexivity]. }
  assert (Hr : truthy_str r = true) by (rewrite E1 in Er; exact (Hne _ _ Er)).
  assert (Hs0 : truthy_str s = true) by (rewrite E2 in Es; exact (Hne _ _ Es)).
  assert (Hr' : truthy_str r' = true) by (rewrite E3 in Er'; exact (Hne _ _ Er')).
  assert (Hs0' : truthy_str s' = true) by (rewrite E4 in Es'; exact (Hne _ _ Es')).
  destruct (hunting_tag_of_code s Hs) as [_ Hact].
  destruct (hunting_tag_of_code s' Hs') as [Hhunt _].
  split.
  - unfold handleDeepLink. rewrite Hu, Hsch. cbn [negb orb].
    assert (Hq : (match processedUrl with
                  | Some last => String.eqb last u
                  | None => false
                  end) = false).
    { destruct processedUrl as [last|]; [|reflexivity].
      destruct (String.eqb_spec last u) as [->|]; [now elim Hnew | reflexivity]. }
    rewrite Hq, Hp, Er, Es.
    unfold findOrCreateOperation. rewrite Hr, Hs0. cbn [negb orb].
    rewrite find_no_match.
    + rewrite Hact. fold data. rewrite Hadd. cbn [bind]. rewrite Hset. reflexivity.
    + intros [op|] Hin; [|reflexivity].
      destruct (matches_ref (get_property TYPE_TO_ACTIVATION s) r (Some op)) eqn:E;
        [|reflexivity].
      apply matches_ref_true in E as (op' & x & [= <-] & Hd & Hf & Hx).
      destruct (Hdel op Hin) as [Hdead|Hother]; [congruence|].
      now elim (Hother x Hf).
  - rewrite build_fields. cbn [QSO.refs]. now rewrite Er', Es', Hr', Hs0', Hhunt.
Qed.

Lemma activation_tag_and_hunting_tag_witness :
  @handleDeepLink ascii_host test_lib fresh_store first_ref_of_type 0
    (Some [Some op_K1234_deleted; None; Some op_K9999]) None
    (Some url_summit_to_summit)
  = (Some url_summit_to_summit,
     [ Dispatch_addNewOperation
         {| _useTemplates := false;
            new_refs := Some [ {| type := Some (JStr "potaActivation");
                                  ref := "K-1234" |} ];
            _isNew := true |};
       Dispatch_setOperationData "fresh"
         [ {| type := Some (JStr "potaActivation"); ref := "K-1234" |} ];
       Navigate_Operation "fresh"
         {| uuid := "fresh"; deleted := false;
            op_refs := [ {| type := Some (JStr "potaActivation");
                            ref := "K-1234" |} ] |}
         (@buildSuggestedQSO test_lib 0 summit_to_summit) ]) /\
  QSO.refs (@buildSuggestedQSO test_lib 0 summit_to_summit)
  = Some [ {| type := Some (JStr "sota"); ref := "W6/CT-006" |} ].
Proof.
  refine (@activation_tag_and_hunting_tag ascii_host test_lib fresh_store
            first_ref_of_type 0 (Some [Some op_K1234_deleted; None; Some op_K9999]) None
            url_summit_to_summit summit_to_summit
            "K-1234" "pota" "W6/CT-006" "sota"
            {| uuid := "fresh"; deleted := false;
               op_refs := [ {| type := Some (JStr "potaActivation");
                               ref := "K-1234" |} ] |}
            _ eq_refl eq_refl eq_refl _ eq_refl eq_refl _ _ eq_refl eq_refl).
  - discriminate.
  - simpl. tauto.
  - simpl. tauto.
  - intros op [[= <-]|[H|[[= <-]|[]]]].
    + now left.
    + discriminate H.
    + right. intros opRef H. vm_compute in H. injection H as <-. discriminate.
Defined.
